(** * uLogger: the log record buffer of [uLogger.hpp]

    A shallow embedding of [struct LogBuffer] (sources/uLogger/inc/uLogger.hpp)
    and of the operations on it: the typed [append] overloads, [appendHex],
    [safeAppend], [reset], [getTimestamp], [printUnsafe]/[print], [flush] and
    the file-sink life cycle.

    Conventions of the embedding:
    - [char] is [ascii]; C strings, [std::string] and [std::string_view] are
      [list ascii]; the array [char buffer[BUFFER_SIZE]] is a [list ascii]
      updated in place ([list_inserts]);
    - [size_t] is [Z] with its wrap-around modulo 2^64 written out;
    - the formatted output of [std::snprintf] is computed by the [fmt_*]
      functions below and then written, cut to the room that is left, by
      [snprintf];
    - console and file output is an explicit trace of [IOEvent]s;
    - the system clock and the time zone are inputs of the operations that
      read them. *)

From Stdlib Require Import ZArith NArith Ascii String Lia.
From stdpp Require Import base list.

Local Open Scope Z_scope.

(** ** Characters and text *)

Definition NUL : ascii := Ascii.zero.

(** String literals as character lists. *)
Definition txt (s : string) : list ascii := list_ascii_of_string s.

(** Reading a NUL-terminated string: the characters before the first NUL. *)
Fixpoint c_str (l : list ascii) : list ascii :=
  match l with
  | [] => []
  | c :: l' => if Ascii.eqb c NUL then [] else c :: c_str l'
  end.

Definition SP : list ascii := txt " ".

(** ** Positional rendering of naturals, as done by the printf conversions *)

Definition dec_digit (d : N) : ascii := ascii_of_N (48 + d).

Definition hex_digit_upper (d : N) : ascii :=
  if (d <? 10)%N then ascii_of_N (48 + d) else ascii_of_N (55 + d).

Definition hex_digit_lower (d : N) : ascii :=
  if (d <? 10)%N then ascii_of_N (48 + d) else ascii_of_N (87 + d).

(** Digits of [n] in base [base], most significant first.  The recursion
    divides by [base] at each step; [fuel] bounds the number of divisions. *)
Fixpoint digits_fuel (fuel : nat) (base n : N) : list N :=
  match fuel with
  | O => [n]
  | S f => if (n <? base)%N then [n]
           else digits_fuel f base (n / base) ++ [(n mod base)%N]
  end.

(** [N.log2 n] divisions are enough for every base of at least two. *)
Definition digits (base n : N) : list N :=
  digits_fuel (N.to_nat (N.log2 n)) base n.

Definition digits_value (base : N) (ds : list N) : N :=
  fold_left (fun acc d => (acc * base + d)%N) ds 0%N.

Definition render_dec (n : N) : list ascii := map dec_digit (digits 10 n).

Definition render_HEX (n : N) : list ascii := map hex_digit_upper (digits 16 n).

Definition render_hex (n : N) : list ascii := map hex_digit_lower (digits 16 n).

(** Left padding, as [std::setw]/[std::setfill] and the [%0Nd] conversions
    do it: fill characters in front, never cutting. *)
Definition pad_left (c : ascii) (w : nat) (s : list ascii) : list ascii :=
  replicate (w - length s)%nat c ++ s.

(** ** Integral arguments *)

Definition two64 : Z := 2 ^ 64.

(** Reinterpretation of a 64-bit pattern as [unsigned long long] and as
    [long long]. *)
Definition as_unsigned64 (z : Z) : Z := z mod two64.

Definition as_signed64 (z : Z) : Z :=
  let u := z mod two64 in if u <? 2 ^ 63 then u else u - two64.

(** The integral types the logging macros instantiate [append<T>] and
    [appendHex<T>] with. *)
Inductive IntegralT :=
  | T_int8 | T_int16 | T_int32 | T_int64
  | T_uint8 | T_uint16 | T_uint32 | T_uint64 | T_size_t.

Definition is_signed (T : IntegralT) : bool :=
  match T with
  | T_int8 | T_int16 | T_int32 | T_int64 => true
  | _ => false
  end.

Definition is_size_t (T : IntegralT) : bool :=
  match T with T_size_t => true | _ => false end.

Definition bit_width (T : IntegralT) : Z :=
  match T with
  | T_int8 | T_uint8 => 8
  | T_int16 | T_uint16 => 16
  | T_int32 | T_uint32 => 32
  | T_int64 | T_uint64 | T_size_t => 64
  end.

(** [static_cast<T>(v)]: the value of type [T] congruent to [v]. *)
Definition cast_to (T : IntegralT) (v : Z) : Z :=
  let m := 2 ^ bit_width T in
  let u := v mod m in
  if is_signed T then (if u <? m / 2 then u else u - m) else u.

(** [%lld], [%llu]/[%zu] and [%llX]/[%zX] applied to a 64-bit argument. *)
Definition fmt_lld (x : Z) : list ascii :=
  let s := as_signed64 x in
  if s <? 0 then txt "-" ++ render_dec (Z.to_N (- s)) else render_dec (Z.to_N s).

Definition fmt_llu (x : Z) : list ascii := render_dec (Z.to_N (as_unsigned64 x)).

Definition fmt_llX (x : Z) : list ascii := render_HEX (Z.to_N (as_unsigned64 x)).

(** ** Floating-point arguments

    A [double] is kept as the exact number it denotes: [m * 2^e] with a sign,
    or an infinity, or a NaN.  [%.8f] prints the exact decimal expansion
    rounded to eight places (to nearest, ties to even). *)
Inductive double :=
  | D_finite (neg : bool) (m : N) (e : Z)
  | D_inf (neg : bool)
  | D_nan (neg : bool).

(** The value scaled by 10^8 and rounded to an integer. *)
Definition scaled8 (m : N) (e : Z) : N :=
  if 0 <=? e then (m * 2 ^ Z.to_N e * 10 ^ 8)%N
  else
    let num := (m * 10 ^ 8)%N in
    let den := (2 ^ Z.to_N (- e))%N in
    let q := (num / den)%N in
    let r := (num mod den)%N in
    if (den <? 2 * r)%N then (q + 1)%N
    else if (2 * r =? den)%N && N.odd q then (q + 1)%N
    else q.

Definition fmt_sign (neg : bool) : list ascii := if neg then txt "-" else [].

Definition fmt_f8 (d : double) : list ascii :=
  match d with
  | D_finite neg m e =>
      let n := scaled8 m e in
      fmt_sign neg ++ render_dec (n / 10 ^ 8)%N ++ txt "."
        ++ pad_left "0"%char 8 (render_dec (n mod 10 ^ 8)%N)
  | D_inf neg => fmt_sign neg ++ txt "inf"
  | D_nan neg => fmt_sign neg ++ txt "nan"
  end.

(** ** Pointer arguments: [%p] as glibc prints it *)
Definition fmt_p (addr : N) : list ascii :=
  if (addr =? 0)%N then txt "(nil)" else txt "0x" ++ render_hex addr.

(** ** Severities and flush policies *)

Inductive LogLevel :=
  | EC_VERBOSE | EC_DEBUG | EC_INFO | EC_WARNING | EC_ERROR | EC_FATAL | EC_FIXED.

Definition LOG_VERBOSE := EC_VERBOSE.

Definition LOG_DEBUG := EC_DEBUG.

Definition LOG_INFO := EC_INFO.

Definition LOG_WARNING := EC_WARNING.

Definition LOG_ERROR := EC_ERROR.

Definition LOG_FATAL := EC_FATAL.

Definition LOG_FIXED := EC_FIXED.

(** The enumerators' underlying values, which the comparisons use. *)
Definition level_value (l : LogLevel) : Z :=
  match l with
  | EC_VERBOSE => 0 | EC_DEBUG => 1 | EC_INFO => 2 | EC_WARNING => 3
  | EC_ERROR => 4 | EC_FATAL => 5 | EC_FIXED => 6
  end.

Definition level_lt (a b : LogLevel) : bool := level_value a <? level_value b.

Definition level_ge (a b : LogLevel) : bool := level_value b <=? level_value a.

Definition toString (level : LogLevel) : list ascii :=
  match level with
  | EC_VERBOSE => txt "VERBOSE"
  | EC_DEBUG => txt "  DEBUG"
  | EC_INFO => txt "   INFO"
  | EC_WARNING => txt "WARNING"
  | EC_ERROR => txt "  ERROR"
  | EC_FATAL => txt "  FATAL"
  | EC_FIXED => txt "  FIXED"
  end.

Definition ESC : ascii := ascii_of_N 27.

Definition getColor (level : LogLevel) : list ascii :=
  match level with
  | EC_VERBOSE => ESC :: txt "[90m"
  | EC_DEBUG => ESC :: txt "[36m"
  | EC_INFO => ESC :: txt "[32m"
  | EC_WARNING => ESC :: txt "[33m"
  | EC_ERROR => ESC :: txt "[31m"
  | EC_FATAL => ESC :: txt "[91m"
  | EC_FIXED => ESC :: txt "[97m"
  end.

Definition COLOR_RESET : list ascii := ESC :: txt "[0m".

Inductive FlushPolicy := ALWAYS | ERROR_AND_ABOVE | NEVER.

(** ** The file stream and the output trace

    [std::ofstream] is kept as its open flag and the name it was opened with;
    what is sent to the console and to the file is recorded as a trace.
    Failures of the operating system while writing are not modelled. *)
Record ofstream := mk_ofstream {
  is_open : bool;
  path : list ascii
}.

Definition closed_stream : ofstream := mk_ofstream false [].

(** [logFile.open(name, out | app)], [ok] telling whether the operating
    system grants the file.  Opening a stream that is already open fails and
    leaves it associated with its file. *)
Definition ofstream_open (f : ofstream) (name : list ascii) (ok : bool) : ofstream :=
  if is_open f then f
  else if ok then mk_ofstream true name
  else f.

Inductive IOEvent :=
  | ConsoleWrite (s : list ascii)
  | ConsoleFlush
  | FileOpen (name : list ascii) (ok : bool)
  | FileWrite (s : list ascii)
  | FileFlush
  | FileClose.

(** ** Calendar time *)

Record tm := mk_tm {
  tm_sec : Z; tm_min : Z; tm_hour : Z; tm_mday : Z; tm_mon : Z; tm_year : Z
}.

Definition two_digits (z : Z) : list ascii := pad_left "0"%char 2 (render_dec (Z.to_N z)).

Definition year_digits (t : tm) : list ascii := render_dec (Z.to_N (tm_year t + 1900)).

(** [std::put_time(&tm, "%Y-%m-%d %H:%M:%S")], ["%H:%M:%S"] and
    ["%Y%m%d_%H%M%S"]. *)
Definition put_time_hms (t : tm) : list ascii :=
  two_digits (tm_hour t) ++ txt ":" ++ two_digits (tm_min t) ++ txt ":"
    ++ two_digits (tm_sec t).

Definition put_time_date (t : tm) : list ascii :=
  year_digits t ++ txt "-" ++ two_digits (tm_mon t + 1) ++ txt "-"
    ++ two_digits (tm_mday t).

Definition put_time_full (t : tm) : list ascii :=
  put_time_date t ++ txt " " ++ put_time_hms t.

Definition put_time_compact (t : tm) : list ascii :=
  year_digits t ++ two_digits (tm_mon t + 1) ++ two_digits (tm_mday t) ++ txt "_"
    ++ two_digits (tm_hour t) ++ two_digits (tm_min t) ++ two_digits (tm_sec t).

(** The conversion of seconds since the epoch to calendar fields in UTC: the
    instance of [localtime_r] for the zone with offset zero, used to run the
    model on concrete clock readings. *)
Definition gmtime_r (t : Z) : tm :=
  let days := t / 86400 in
  let secs := t mod 86400 in
  let z := days + 719468 in
  let era := z / 146097 in
  let doe := z - era * 146097 in
  let yoe := (doe - doe / 1460 + doe / 36524 - doe / 146096) / 365 in
  let doy := doe - (365 * yoe + yoe / 4 - yoe / 100) in
  let mp := (5 * doy + 2) / 153 in
  let d := doy - (153 * mp + 2) / 5 + 1 in
  let m := if mp <? 10 then mp + 3 else mp - 9 in
  let y := yoe + era * 400 + (if m <=? 2 then 1 else 0) in
  mk_tm (secs mod 60) (secs / 60 mod 60) (secs / 3600) d (m - 1) (y - 1900).

(** ** The log buffer *)

Definition BUFFER_SIZE : Z := 4096.

(** [size_t] arithmetic. *)
Definition size_t_wrap (z : Z) : Z := z mod two64.

Record LogBuffer := mkLogBuffer {
  buffer : list ascii;
  size : Z;
  currentLevel : LogLevel;
  consoleThreshold : LogLevel;
  fileThreshold : LogLevel;
  logFile : ofstream;
  fileLoggingEnabled : bool;
  useColors : bool;
  includeDate : bool;
  truncated : bool;
  flushPolicy : FlushPolicy;
  cachedTimestamp : list ascii;
  lastTimestampUpdate : Z
}.

(** A freshly constructed [LogBuffer]: the member initialisers of the struct;
    the default [time_point] is the epoch. *)
Definition LogBuffer_new : LogBuffer :=
  mkLogBuffer (replicate (Z.to_nat BUFFER_SIZE) NUL) 0 LOG_INFO LOG_VERBOSE LOG_VERBOSE
    closed_stream false true true false ERROR_AND_ABOVE [] 0.

(** Field updates. *)
Definition set_buffer (b : list ascii) (s : LogBuffer) : LogBuffer :=
  mkLogBuffer b (size s) (currentLevel s) (consoleThreshold s) (fileThreshold s)
    (logFile s) (fileLoggingEnabled s) (useColors s) (includeDate s) (truncated s)
    (flushPolicy s) (cachedTimestamp s) (lastTimestampUpdate s).

Definition set_size (n : Z) (s : LogBuffer) : LogBuffer :=
  mkLogBuffer (buffer s) n (currentLevel s) (consoleThreshold s) (fileThreshold s)
    (logFile s) (fileLoggingEnabled s) (useColors s) (includeDate s) (truncated s)
    (flushPolicy s) (cachedTimestamp s) (lastTimestampUpdate s).

Definition set_currentLevel (l : LogLevel) (s : LogBuffer) : LogBuffer :=
  mkLogBuffer (buffer s) (size s) l (consoleThreshold s) (fileThreshold s)
    (logFile s) (fileLoggingEnabled s) (useColors s) (includeDate s) (truncated s)
    (flushPolicy s) (cachedTimestamp s) (lastTimestampUpdate s).

Definition set_consoleThreshold (l : LogLevel) (s : LogBuffer) : LogBuffer :=
  mkLogBuffer (buffer s) (size s) (currentLevel s) l (fileThreshold s)
    (logFile s) (fileLoggingEnabled s) (useColors s) (includeDate s) (truncated s)
    (flushPolicy s) (cachedTimestamp s) (lastTimestampUpdate s).

Definition set_fileThreshold (l : LogLevel) (s : LogBuffer) : LogBuffer :=
  mkLogBuffer (buffer s) (size s) (currentLevel s) (consoleThreshold s) l
    (logFile s) (fileLoggingEnabled s) (useColors s) (includeDate s) (truncated s)
    (flushPolicy s) (cachedTimestamp s) (lastTimestampUpdate s).

Definition set_logFile (f : ofstream) (s : LogBuffer) : LogBuffer :=
  mkLogBuffer (buffer s) (size s) (currentLevel s) (consoleThreshold s) (fileThreshold s)
    f (fileLoggingEnabled s) (useColors s) (includeDate s) (truncated s)
    (flushPolicy s) (cachedTimestamp s) (lastTimestampUpdate s).

Definition set_fileLoggingEnabled (b : bool) (s : LogBuffer) : LogBuffer :=
  mkLogBuffer (buffer s) (size s) (currentLevel s) (consoleThreshold s) (fileThreshold s)
    (logFile s) b (useColors s) (includeDate s) (truncated s)
    (flushPolicy s) (cachedTimestamp s) (lastTimestampUpdate s).

Definition set_useColors (b : bool) (s : LogBuffer) : LogBuffer :=
  mkLogBuffer (buffer s) (size s) (currentLevel s) (consoleThreshold s) (fileThreshold s)
    (logFile s) (fileLoggingEnabled s) b (includeDate s) (truncated s)
    (flushPolicy s) (cachedTimestamp s) (lastTimestampUpdate s).

Definition set_includeDate (b : bool) (s : LogBuffer) : LogBuffer :=
  mkLogBuffer (buffer s) (size s) (currentLevel s) (consoleThreshold s) (fileThreshold s)
    (logFile s) (fileLoggingEnabled s) (useColors s) b (truncated s)
    (flushPolicy s) (cachedTimestamp s) (lastTimestampUpdate s).

Definition set_truncated (b : bool) (s : LogBuffer) : LogBuffer :=
  mkLogBuffer (buffer s) (size s) (currentLevel s) (consoleThreshold s) (fileThreshold s)
    (logFile s) (fileLoggingEnabled s) (useColors s) (includeDate s) b
    (flushPolicy s) (cachedTimestamp s) (lastTimestampUpdate s).

Definition set_flushPolicy (p : FlushPolicy) (s : LogBuffer) : LogBuffer :=
  mkLogBuffer (buffer s) (size s) (currentLevel s) (consoleThreshold s) (fileThreshold s)
    (logFile s) (fileLoggingEnabled s) (useColors s) (includeDate s) (truncated s)
    p (cachedTimestamp s) (lastTimestampUpdate s).

Definition set_timestampCache (c : list ascii) (t : Z) (s : LogBuffer) : LogBuffer :=
  mkLogBuffer (buffer s) (size s) (currentLevel s) (consoleThreshold s) (fileThreshold s)
    (logFile s) (fileLoggingEnabled s) (useColors s) (includeDate s) (truncated s)
    (flushPolicy s) c t.

(** [reset]: [size = 0; buffer[0] = '\0'; currentLevel = LOG_INFO;
    truncated = false]. *)
Definition reset (s : LogBuffer) : LogBuffer :=
  set_truncated false
    (set_currentLevel LOG_INFO
       (set_buffer (<[0%nat := NUL]> (buffer s)) (set_size 0 s))).

(** [std::snprintf(buffer + off, n, fmt, ...)] where [out] is the complete
    formatted output: at most [n - 1] characters of [out] are stored from
    offset [off] on, followed by a NUL, and the length of the complete output
    is returned (outputs are taken to be shorter than [INT_MAX]). *)
Definition snprintf (buf : list ascii) (off n : Z) (out : list ascii)
  : list ascii * Z :=
  let written := Z.of_nat (length out) in
  if n <=? 0 then (buf, written)
  else (list_inserts (Z.to_nat off) (take (Z.to_nat (n - 1)) out ++ [NUL]) buf, written).

(** [safeAppend]: advance [size] by what fitted, flag what did not. *)
Definition safeAppend (written : Z) (s : LogBuffer) : LogBuffer :=
  if 0 <? written then
    let available := size_t_wrap (BUFFER_SIZE - size s - 1) in
    let toWrite := Z.min written available in
    let s1 := if available <? written then set_truncated true s else s in
    set_size (size_t_wrap (size s1 + toWrite)) s1
  else s.

(** The common tail of the [append] overloads:
    [int written = std::snprintf(buffer + size, BUFFER_SIZE - size, ...);
     safeAppend(written);] *)
Definition format_into (out : list ascii) (s : LogBuffer) : LogBuffer :=
  let '(buf, written) :=
    snprintf (buffer s) (size s) (size_t_wrap (BUFFER_SIZE - size s)) out in
  safeAppend written (set_buffer buf s).

(** [append(char c)], format ["%c "]. *)
Definition append_char (c : ascii) (s : LogBuffer) : LogBuffer :=
  if BUFFER_SIZE - 2 <=? size s then set_truncated true s
  else format_into ([c] ++ SP) s.

(** [append(const char* text)], format ["%s "]; [None] is the null pointer. *)
Definition append_cstr (text : option (list ascii)) (s : LogBuffer) : LogBuffer :=
  match text with
  | None => if BUFFER_SIZE - 1 <=? size s then set_truncated true s else s
  | Some t =>
      if BUFFER_SIZE - 1 <=? size s then set_truncated true s
      else format_into (c_str t ++ SP) s
  end.

(** [append(const std::string& text)]. *)
Definition append_string (text : list ascii) (s : LogBuffer) : LogBuffer :=
  match text with
  | [] => s
  | _ => append_cstr (Some text) s
  end.

(** [append(const std::string_view& text_view)], format ["%.*s "]: at most
    [text_view.size()] characters, stopping at a NUL. *)
Definition append_string_view (text_view : list ascii) (s : LogBuffer) : LogBuffer :=
  match text_view with
  | [] => s
  | _ =>
      if Z.of_nat (length text_view) <? size_t_wrap (BUFFER_SIZE - size s - 1)
      then format_into (c_str text_view ++ SP) s
      else set_truncated true s
  end.

(** [append(bool value)]. *)
Definition append_bool (value : bool) (s : LogBuffer) : LogBuffer :=
  if BUFFER_SIZE - 10 <=? size s then set_truncated true s
  else format_into ((if value then txt "true" else txt "false") ++ SP) s.

(** The output of the integral [append<T>]: ["%zu "] for [size_t], ["%lld "]
    for signed types, ["%llu "] otherwise, applied to
    [static_cast<long long>(value)]. *)
Definition fmt_integral (T : IntegralT) (value : Z) : list ascii :=
  let arg := as_signed64 (cast_to T value) in
  if is_size_t T then fmt_llu arg
  else if is_signed T then fmt_lld arg
  else fmt_llu arg.

Definition append_integral (T : IntegralT) (value : Z) (s : LogBuffer) : LogBuffer :=
  if BUFFER_SIZE - 25 <=? size s then set_truncated true s
  else format_into (fmt_integral T value ++ SP) s.

(** The output of [appendHex<T>]: ["0x%zX "] or ["0x%llX "] applied to
    [static_cast<unsigned long long>(value)]. *)
Definition fmt_hex (T : IntegralT) (value : Z) : list ascii :=
  txt "0x" ++ fmt_llX (as_unsigned64 (cast_to T value)).

Definition appendHex (T : IntegralT) (value : Z) (s : LogBuffer) : LogBuffer :=
  if BUFFER_SIZE - 25 <=? size s then set_truncated true s
  else format_into (fmt_hex T value ++ SP) s.

(** The floating-point [append<T>], format ["%.8f "]. *)
Definition append_floating (value : double) (s : LogBuffer) : LogBuffer :=
  if BUFFER_SIZE - 30 <=? size s then set_truncated true s
  else format_into (fmt_f8 value ++ SP) s.

(** The pointer [append<T>], format ["%p "]. *)
Definition append_pointer (ptr : N) (s : LogBuffer) : LogBuffer :=
  if BUFFER_SIZE - 20 <=? size s then set_truncated true s
  else format_into (fmt_p ptr ++ SP) s.

(** The values a record is assembled from, one constructor per [append]
    overload (and [appendHex]). *)
Inductive Value :=
  | VChar (c : ascii)
  | VCStr (text : option (list ascii))
  | VString (text : list ascii)
  | VStringView (text_view : list ascii)
  | VBool (b : bool)
  | VInt (T : IntegralT) (v : Z)
  | VHex (T : IntegralT) (v : Z)
  | VFloat (d : double)
  | VPtr (p : N).

Definition append (v : Value) (s : LogBuffer) : LogBuffer :=
  match v with
  | VChar c => append_char c s
  | VCStr t => append_cstr t s
  | VString t => append_string t s
  | VStringView t => append_string_view t s
  | VBool b => append_bool b s
  | VInt T z => append_integral T z s
  | VHex T z => appendHex T z s
  | VFloat d => append_floating d s
  | VPtr p => append_pointer p s
  end.

Definition append_all (vs : list Value) (s : LogBuffer) : LogBuffer :=
  fold_left (fun st v => append v st) vs s.

(** ** Setters *)

Definition setLevel (level : LogLevel) (s : LogBuffer) : LogBuffer :=
  set_currentLevel level s.

Definition setConsoleThreshold (level : LogLevel) (s : LogBuffer) : LogBuffer :=
  set_consoleThreshold level s.

Definition setFileThreshold (level : LogLevel) (s : LogBuffer) : LogBuffer :=
  set_fileThreshold level s.

Definition setFlushPolicy (policy : FlushPolicy) (s : LogBuffer) : LogBuffer :=
  set_flushPolicy policy s.

(** ** Timestamps, emission and the file sink

    [localtime_r] depends on the time zone of the process and is a parameter.
    Clock readings are [system_clock] ticks, nanoseconds since the epoch;
    [duration_cast] truncates toward zero ([Z.quot], [Z.rem]). *)

Definition LF : ascii := ascii_of_N 10.

Definition is_empty (l : list ascii) : bool :=
  match l with [] => true | _ => false end.

Section Zone.

Variable localtime_r : Z -> tm.

Definition to_time_t (now : Z) : Z := Z.quot now 1000000000.

(** The text [getTimestamp] computes for the clock reading [now]. *)
Definition timestamp_text (include_date : bool) (now : Z) : list ascii :=
  let micros := Z.rem (Z.quot now 1000) 1000000 in
  let t := localtime_r (to_time_t now) in
  (if include_date then put_time_full t else put_time_hms t)
    ++ txt "." ++ pad_left "0"%char 6 (fmt_lld micros) ++ txt " | ".

(** [getTimestamp]: the cached text if one is there and less than one whole
    millisecond has passed since it was computed; otherwise a new text, which
    replaces the cache. *)
Definition getTimestamp (now : Z) (s : LogBuffer) : list ascii * LogBuffer :=
  let elapsed := Z.quot (now - lastTimestampUpdate s) 1000000 in
  if negb (is_empty (cachedTimestamp s)) && (elapsed <? 1)
  then (cachedTimestamp s, s)
  else
    let result := timestamp_text (includeDate s) now in
    (result, set_timestampCache result now s).

Definition shouldFlush (s : LogBuffer) : bool :=
  match flushPolicy s with
  | ALWAYS => true
  | ERROR_AND_ABOVE => level_ge (currentLevel s) LOG_ERROR
  | NEVER => false
  end.

(** The line [printUnsafe] builds in [oss]. *)
Definition compose_line (timestamp : list ascii) (s : LogBuffer) : list ascii :=
  timestamp ++ toString (currentLevel s) ++ txt " | " ++ c_str (buffer s)
    ++ (if truncated s then txt " [TRUNCATED]" else []) ++ [LF].

Definition console_text (s : LogBuffer) (fullMessage : list ascii) : list ascii :=
  if useColors s
  then getColor (currentLevel s) ++ c_str fullMessage ++ COLOR_RESET
  else c_str fullMessage.

Definition printUnsafe (now : Z) (s : LogBuffer) : LogBuffer * list IOEvent :=
  if level_lt (currentLevel s) (consoleThreshold s)
     && (negb (fileLoggingEnabled s) || level_lt (currentLevel s) (fileThreshold s))
  then (reset s, [])
  else
    let '(timestamp, s1) := getTimestamp now s in
    let fullMessage := compose_line timestamp s1 in
    let console :=
      if level_ge (currentLevel s1) (consoleThreshold s1)
      then [ConsoleWrite (console_text s1 fullMessage); ConsoleFlush]
      else [] in
    let file :=
      if fileLoggingEnabled s1 && level_ge (currentLevel s1) (fileThreshold s1)
         && is_open (logFile s1)
      then FileWrite fullMessage :: (if shouldFlush s1 then [FileFlush] else [])
      else [] in
    (reset s1, console ++ file).

(** [print] is [printUnsafe] under [logMutex]. *)
Definition print (now : Z) (s : LogBuffer) : LogBuffer * list IOEvent :=
  printUnsafe now s.

Definition flush (s : LogBuffer) : LogBuffer * list IOEvent :=
  if is_open (logFile s) then (s, [FileFlush]) else (s, []).

(** [enableFileLogging(filename)]; [ok] tells whether the file can be
    opened. *)
Definition enableFileLogging (now : Z) (ok : bool) (filename : list ascii)
    (s : LogBuffer) : LogBuffer * list IOEvent :=
  if negb (fileLoggingEnabled s) then
    let logFilename :=
      if is_empty filename
      then txt "log_" ++ put_time_compact (localtime_r (to_time_t now)) ++ txt ".txt"
      else filename in
    let f := ofstream_open (logFile s) logFilename ok in
    (set_fileLoggingEnabled (is_open f) (set_logFile f s), [FileOpen logFilename ok])
  else (s, []).

Definition disableFileLogging (s : LogBuffer) : LogBuffer * list IOEvent :=
  let '(s1, ev) :=
    if is_open (logFile s)
    then (set_logFile closed_stream s, [FileFlush; FileClose])
    else (s, []) in
  (set_fileLoggingEnabled false s1, ev).

(** [LOG_PRINT(SEVERITY, fields)]: set the level, append the fields, emit. *)
Definition LOG_PRINT (now : Z) (severity : LogLevel) (fields : list Value)
    (s : LogBuffer) : LogBuffer * list IOEvent :=
  printUnsafe now (append_all fields (setLevel severity s)).

(** [LOG_INIT(CONSOLE_LEVEL, FILE_LEVEL, ENABLE_FILE, ENABLE_COLORS,
    INCLUDE_DATE)]: the thresholds and the two flags are stored, then the
    file sink is enabled (with the generated file name) or disabled. *)
Definition LOG_INIT (now : Z) (ok : bool) (console_level file_level : LogLevel)
    (enable_file enable_colors include_date : bool) (s : LogBuffer)
  : LogBuffer * list IOEvent :=
  let s1 :=
    set_includeDate include_date
      (set_useColors enable_colors
         (setFileThreshold file_level (setConsoleThreshold console_level s))) in
  if enable_file then enableFileLogging now ok [] s1 else disableFileLogging s1.

(** [LOG_DEINIT()]: [flush] then [disableFileLogging]. *)
Definition LOG_DEINIT (s : LogBuffer) : LogBuffer * list IOEvent :=
  let '(s1, ev1) := flush s in
  let '(s2, ev2) := disableFileLogging s1 in
  (s2, ev1 ++ ev2).

(** The operations of a [LogBuffer], with the inputs they read from their
    environment. *)
Inductive Op :=
  | OpAppend (v : Value)
  | OpReset
  | OpPrint (now : Z)
  | OpFlush
  | OpSetLevel (l : LogLevel)
  | OpSetConsoleThreshold (l : LogLevel)
  | OpSetFileThreshold (l : LogLevel)
  | OpSetFlushPolicy (p : FlushPolicy)
  | OpSetUseColors (b : bool)
  | OpSetIncludeDate (b : bool)
  | OpEnableFileLogging (now : Z) (ok : bool) (filename : list ascii)
  | OpDisableFileLogging.

Definition step (o : Op) (s : LogBuffer) : LogBuffer * list IOEvent :=
  match o with
  | OpAppend v => (append v s, [])
  | OpReset => (reset s, [])
  | OpPrint now => print now s
  | OpFlush => flush s
  | OpSetLevel l => (setLevel l s, [])
  | OpSetConsoleThreshold l => (setConsoleThreshold l s, [])
  | OpSetFileThreshold l => (setFileThreshold l s, [])
  | OpSetFlushPolicy p => (setFlushPolicy p s, [])
  | OpSetUseColors b => (set_useColors b s, [])
  | OpSetIncludeDate b => (set_includeDate b s, [])
  | OpEnableFileLogging now ok filename => enableFileLogging now ok filename s
  | OpDisableFileLogging => disableFileLogging s
  end.

(** Running a sequence of operations, collecting the output. *)
Fixpoint run (ops : list Op) (s : LogBuffer) : LogBuffer * list IOEvent :=
  match ops with
  | [] => (s, [])
  | o :: ops' =>
      let '(s1, ev1) := step o s in
      let '(s2, ev2) := run ops' s1 in
      (s2, ev1 ++ ev2)
  end.

End Zone.

(** The occupied part of the buffer. *)
Definition record_text (s : LogBuffer) : list ascii := take (Z.to_nat (size s)) (buffer s).

(** The scenario of the specification: console threshold WARNING, no file;
    a record at INFO is dropped, the same record at ERROR is printed. *)
Definition scenario_state : LogBuffer :=
  fst (LOG_INIT gmtime_r 1709210090000000000 true LOG_WARNING LOG_VERBOSE
         false false true LogBuffer_new).

Definition scenario_fields : list Value :=
  [VCStr (Some (txt "hello")); VInt T_int32 42].

(** * Vocabulary of the statements

    Invariants, observers of the output trace, what each append contributes
    and reserves, and the concrete buffers and clock readings the examples
    run on. *)

(** ** Invariants *)

(** [size] stays below the capacity, leaving room for the terminator. *)
Definition size_inv (s : LogBuffer) : Prop := 0 <= size s <= BUFFER_SIZE - 1.

(** The array has its declared length and holds a NUL at index [size]. *)
Definition wf (s : LogBuffer) : Prop :=
  length (buffer s) = Z.to_nat BUFFER_SIZE /\ size_inv s
  /\ buffer s !! Z.to_nat (size s) = Some NUL.

(** What [format_into] does when the size is in range: [k] characters of the
    output are kept, [k] the smaller of the output length and the room. *)
Definition kept (out : list ascii) (s : LogBuffer) : Z :=
  Z.min (Z.of_nat (length out)) (BUFFER_SIZE - 1 - size s).

(** A text of [n] characters. *)
Definition long_text (n : nat) : list ascii := replicate n "a"%char.

(** ** Observers of the output *)

(** What was sent to the console and to the file, in order. *)
Definition console_writes (ev : list IOEvent) : list (list ascii) :=
  flat_map (fun e => match e with ConsoleWrite x => [x] | _ => [] end) ev.

Definition file_writes (ev : list IOEvent) : list (list ascii) :=
  flat_map (fun e => match e with FileWrite x => [x] | _ => [] end) ev.

(** The line a call of [printUnsafe] composes when it does not take the early
    exit. *)
Definition emitted_line (lt : Z -> tm) (now : Z) (s : LogBuffer) : list ascii :=
  compose_line (fst (getTimestamp lt now s)) (snd (getTimestamp lt now s)).

(** File logging enabled, with an open handle. *)
Definition file_sink_ready (s : LogBuffer) : bool :=
  fileLoggingEnabled s && is_open (logFile s).

(** A state with the given level and the sink settings that make the console
    fire iff [c] and the file fire iff [f]. *)
Definition gating_example (c f : bool) : LogBuffer :=
  set_logFile (mk_ofstream true (txt "app.log"))
    (set_fileLoggingEnabled true
       (setFileThreshold (if f then LOG_DEBUG else LOG_ERROR)
          (setConsoleThreshold (if c then LOG_DEBUG else LOG_ERROR)
             (setLevel LOG_INFO LogBuffer_new)))).

(** The enabled flag mirrors the state of the handle. *)
Definition sink_consistent (s : LogBuffer) : Prop :=
  fileLoggingEnabled s = is_open (logFile s).

(** A buffer whose file sink was enabled on the file [app.log]. *)
Definition enabled_example : LogBuffer :=
  fst (enableFileLogging gmtime_r 1709210096123456789 true (txt "app.log") LogBuffer_new).

(** ** Timestamps *)

(** The characters ['0'] to ['9']. *)
Definition is_dec_digit (c : ascii) : bool :=
  (48 <=? N_of_ascii c)%N && (N_of_ascii c <=? 57)%N.

(** The microsecond field: six decimal digits. *)
Definition micros_field (now : Z) : list ascii :=
  pad_left "0"%char 6 (fmt_lld (Z.rem (Z.quot now 1000) 1000000)).

(** Three requests in a row on a new buffer, in UTC: the first computes; the
    second, 0.9 ms later, is served from the cache; the third, 0.9 ms after
    the second, is 1.8 ms after the computation and computes again. *)
Definition clock1 : Z := 1709210096000000000.
Definition clock2 : Z := clock1 + 900000.
Definition clock3 : Z := clock2 + 900000.
Definition request1 := getTimestamp gmtime_r clock1 LogBuffer_new.
Definition request2 := getTimestamp gmtime_r clock2 (snd request1).
Definition request3 := getTimestamp gmtime_r clock3 (snd request2).

(** ** What an append contributes and what it reserves *)

(** The canonical text of a value: what its conversion prints.  A text is
    printed up to its first NUL ([c_str]); a text without NUL is printed
    verbatim. *)
Definition canonical (v : Value) : list ascii :=
  match v with
  | VChar c => [c]
  | VCStr None => []
  | VCStr (Some t) => c_str t
  | VString t => c_str t
  | VStringView t => c_str t
  | VBool b => if b then txt "true" else txt "false"
  | VInt T z => fmt_integral T z
  | VHex T z => fmt_hex T z
  | VFloat d => fmt_f8 d
  | VPtr p => fmt_p p
  end.

(** A null text, an empty [std::string] and an empty [std::string_view] are
    not formatted at all. *)
Definition contributes (v : Value) : bool :=
  match v with
  | VCStr None | VString [] | VStringView [] => false
  | _ => true
  end.

(** The complete output of the append of [v]: its text and one space. *)
Definition rendered (v : Value) : list ascii :=
  if contributes v then canonical v ++ SP else [].

(** The rendered width of one value and of a sequence of values. *)
Definition width (v : Value) : Z := Z.of_nat (length (rendered v)).

Definition total_width (vs : list Value) : Z :=
  fold_right (fun v acc => width v + acc) 0 vs.

(** The room (out of [BUFFER_SIZE - 1 - size]) the guard of each overload
    asks for before it formats anything. *)
Definition reserve (v : Value) : Z :=
  match v with
  | VChar _ => 2
  | VCStr _ => 1
  | VString [] => 0
  | VString _ => 1
  | VStringView [] => 0
  | VStringView t => Z.of_nat (length t) + 1
  | VBool _ => 10
  | VInt _ _ | VHex _ _ => 25
  | VFloat _ => 30
  | VPtr _ => 20
  end.

(** Every append of the sequence, started with [used] bytes occupied, finds
    its reserve and its width in the room that is left. *)
Fixpoint room_for_all (used : Z) (vs : list Value) : bool :=
  match vs with
  | [] => true
  | v :: vs' =>
      (used + Z.max (reserve v) (width v) <=? BUFFER_SIZE - 1)
      && room_for_all (used + width v) vs'
  end.

(** A text without NUL characters. *)
Definition NUL_free (l : list ascii) : Prop := Forall (fun c => Ascii.eqb c NUL = false) l.

(** A string_view without NUL characters: [%.*s] prints all of it. *)
Definition plain_view (v : Value) : Prop :=
  match v with
  | VStringView t => NUL_free t
  | _ => True
  end.

(** A record of 4079 characters of text and the integer 5: 4082 bytes with
    the separators, well under the capacity. *)
Definition headroom_fields : list Value :=
  [VCStr (Some (long_text 4079)); VInt T_int32 5].

(** One value of each kind, well within the capacity. *)
Definition sample_fields : list Value :=
  [VCStr (Some (txt "hello")); VInt T_int32 42; VBool true; VHex T_uint16 48879;
   VChar "x"%char; VFloat (D_finite true 3 (-1)); VString (txt "bye")].

(** The appends whose reserve covers every output they can produce:
    characters, booleans, integrals in decimal and in hexadecimal, and
    pointers of 64 bits. *)
Definition reserve_covers (v : Value) : Prop :=
  match v with
  | VChar _ | VBool _ | VInt _ _ | VHex _ _ => True
  | VPtr p => (p < 2 ^ 64)%N
  | _ => False
  end.

(** A record of 4065 bytes: a text of 4064 characters and its separator. *)
Definition nearly_full : LogBuffer := append (VCStr (Some (long_text 4064))) LogBuffer_new.

(** The double 2^100 = 1267650600228229401496703205376. *)
Definition two_pow_100 : double := D_finite false 1 100.

(** A record filled to the last place without overflow: 4094 characters and
    their separator. *)
Definition exactly_full : LogBuffer := append (VCStr (Some (long_text 4094))) LogBuffer_new.

(** ** The rest of the interface *)

(** The value [safeAppend] returns: the number of bytes counted into
    [size]. *)
Definition safeAppend_result (written : Z) (s : LogBuffer) : Z :=
  if 0 <? written then Z.min written (size_t_wrap (BUFFER_SIZE - size s - 1)) else 0.

(** [LOG_INIT_EXT(..., FLUSH_POLICY)]: [LOG_INIT], then [setFlushPolicy]. *)
Definition LOG_INIT_EXT (lt : Z -> tm) (now : Z) (ok : bool)
    (console_level file_level : LogLevel)
    (enable_file enable_colors include_date : bool) (policy : FlushPolicy)
    (s : LogBuffer) : LogBuffer * list IOEvent :=
  let '(s1, ev) :=
    LOG_INIT lt now ok console_level file_level enable_file enable_colors include_date s in
  (setFlushPolicy policy s1, ev).

(** [LOG_FLUSH()]. *)
Definition LOG_FLUSH (s : LogBuffer) : LogBuffer * list IOEvent := flush s.

(** The values of the integral type [T]. *)
Definition in_range (T : IntegralT) (v : Z) : Prop :=
  if is_signed T
  then - 2 ^ (bit_width T - 1) <= v < 2 ^ (bit_width T - 1)
  else 0 <= v < 2 ^ bit_width T.

(** The name [enableFileLogging] opens: the one given, or [log_<date>_<time>.txt]. *)
Definition chosen_filename (lt : Z -> tm) (now : Z) (filename : list ascii) : list ascii :=
  if is_empty filename
  then txt "log_" ++ put_time_compact (lt (to_time_t now)) ++ txt ".txt"
  else filename.

(** The settings of a buffer: everything but the record under construction
    and the timestamp cache. *)
Definition same_settings (a b : LogBuffer) : Prop :=
  consoleThreshold a = consoleThreshold b /\ fileThreshold a = fileThreshold b
  /\ logFile a = logFile b /\ fileLoggingEnabled a = fileLoggingEnabled b
  /\ useColors a = useColors b /\ includeDate a = includeDate b
  /\ flushPolicy a = flushPolicy b.

(** The timestamp cache of a buffer. *)
Definition same_cache (a b : LogBuffer) : Prop :=
  cachedTimestamp a = cachedTimestamp b /\ lastTimestampUpdate a = lastTimestampUpdate b.

(** The flush policy asks for a flush of the file at the level of [s]. *)
Definition policy_flushes (s : LogBuffer) : Prop :=
  flushPolicy s = ALWAYS
  \/ (flushPolicy s = ERROR_AND_ABOVE
      /\ (currentLevel s = LOG_ERROR \/ currentLevel s = LOG_FATAL
          \/ currentLevel s = LOG_FIXED)).

(** The line of a record with the given severity and fields, when all of
    them are written. *)
Definition record_line (lt : Z -> tm) (now : Z) (severity : LogLevel)
    (fields : list Value) (s : LogBuffer) : list ascii :=
  fst (getTimestamp lt now s) ++ toString severity ++ txt " | "
    ++ concat (map rendered fields) ++ [LF].

(** The buffer after the record [LOG_PRINT(severity, fields)]. *)
Definition after_record (lt : Z -> tm) (now : Z) (severity : LogLevel)
    (fields : list Value) (s : LogBuffer) : LogBuffer :=
  fst (LOG_PRINT lt now severity fields s).

(** ** Values without NUL characters, spelled out *)

(** A value whose output is its text as given: no NUL as a character or in
    a text, and a null-terminated text that is not the empty string. *)
Definition plain_value (v : Value) : Prop :=
  match v with
  | VChar c => Ascii.eqb c NUL = false
  | VCStr (Some t) => NUL_free t /\ t <> []
  | VString t => NUL_free t
  | VStringView t => NUL_free t
  | _ => True
  end.

(** The textual form of a value, a text taken verbatim. *)
Definition verbatim (v : Value) : list ascii :=
  match v with
  | VChar c => [c]
  | VCStr None => []
  | VCStr (Some t) => t
  | VString t => t
  | VStringView t => t
  | VBool b => if b then txt "true" else txt "false"
  | VInt T z => fmt_integral T z
  | VHex T z => fmt_hex T z
  | VFloat d => fmt_f8 d
  | VPtr p => fmt_p p
  end.

(** The place of a value in the record: its textual form and one space;
    nothing for a null text, an empty string and an empty string_view. *)
Definition spelled (v : Value) : list ascii :=
  match v with
  | VCStr None | VString [] | VStringView [] => []
  | _ => verbatim v ++ SP
  end.

(** A record at INFO with two fields, on a buffer whose two sinks both fire;
    the same record after a text that does not fit; and the same record on a
    buffer whose sinks are both closed to it. *)
Definition gating_record : LogBuffer :=
  append_all scenario_fields (gating_example true true).
Definition gating_record_cut : LogBuffer :=
  append (VStringView (long_text 5000)) gating_record.
Definition gating_record_silent : LogBuffer :=
  append_all scenario_fields (gating_example false false).

(** Every append of the sequence, started with [used] bytes occupied, finds
    the reserve of its overload and the length of its text and separator in
    the room that is left. *)
Fixpoint room_for_spelled (used : Z) (vs : list Value) : bool :=
  match vs with
  | [] => true
  | v :: vs' =>
      (used + Z.max (reserve v) (Z.of_nat (length (spelled v))) <=? BUFFER_SIZE - 1)
      && room_for_spelled (used + Z.of_nat (length (spelled v))) vs'
  end.

(** * Properties *)

(** ** The model at work *)

Example render_dec_42 : render_dec 42 = txt "42".
Proof. reflexivity. Qed.

Example render_dec_0 : render_dec 0 = txt "0".
Proof. reflexivity. Qed.

Example fmt_lld_min : fmt_lld (- 2 ^ 63) = txt "-9223372036854775808".
Proof. vm_compute. reflexivity. Qed.

Example fmt_llu_max : fmt_llu (-1) = txt "18446744073709551615".
Proof. vm_compute. reflexivity. Qed.

Example fmt_llX_255 : fmt_llX 255 = txt "FF".
Proof. vm_compute. reflexivity. Qed.

Example fmt_f8_pi : fmt_f8 (D_finite false 7074237752028440 (-51)) = txt "3.14159265".
Proof. vm_compute. reflexivity. Qed.

Example fmt_f8_half : fmt_f8 (D_finite true 1 (-1)) = txt "-0.50000000".
Proof. vm_compute. reflexivity. Qed.

Example fmt_p_ex : fmt_p 3735928559 = txt "0xdeadbeef".
Proof. vm_compute. reflexivity. Qed.

Example gmtime_epoch : put_time_full (gmtime_r 0) = txt "1970-01-01 00:00:00".
Proof. vm_compute. reflexivity. Qed.

Example gmtime_2024 : put_time_full (gmtime_r 1709210096) = txt "2024-02-29 12:34:56".
Proof. vm_compute. reflexivity. Qed.

Example scenario_info :
  snd (LOG_PRINT gmtime_r 1709210096123456789 LOG_INFO scenario_fields scenario_state) = [].
Proof. vm_compute. reflexivity. Qed.

Example scenario_error :
  snd (LOG_PRINT gmtime_r 1709210096123456789 LOG_ERROR scenario_fields scenario_state)
  = [ConsoleWrite (txt "2024-02-29 12:34:56.123456 |   ERROR | hello 42 " ++ [LF]);
     ConsoleFlush].
Proof. vm_compute. reflexivity. Qed.

(** ** The state invariant *)

Lemma wf_size_inv s : wf s -> size_inv s.
Proof. intros (_ & H & _). exact H. Qed.

Lemma wf_new : wf LogBuffer_new.
Proof. repeat split; vm_compute; congruence. Qed.

Local Ltac len_lia :=
  rewrite ?length_app, ?length_take, ?length_inserts, ?length_insert in *;
  simpl length in *; lia.

Lemma format_into_unfold out s :
  size_inv s -> out <> [] ->
  format_into out s =
    set_size (size s + kept out s)
      (set_truncated (if BUFFER_SIZE - 1 - size s <? Z.of_nat (length out)
                      then true else truncated s)
         (set_buffer (list_inserts (Z.to_nat (size s))
                        (take (Z.to_nat (BUFFER_SIZE - 1 - size s)) out ++ [NUL])
                        (buffer s)) s)).
Proof.
  intros Hs Hout. unfold size_inv, BUFFER_SIZE in *.
  assert (Hlen : 0 < Z.of_nat (length out)) by (destruct out; [congruence | simpl; lia]).
  unfold format_into, snprintf, safeAppend, kept, size_t_wrap, two64, BUFFER_SIZE.
  rewrite (Z.mod_small (4096 - size s)) by lia.
  destruct (4096 - size s <=? 0) eqn:E; [apply Z.leb_le in E; lia|].
  cbn [set_buffer size truncated buffer].
  destruct (0 <? Z.of_nat (length out)) eqn:E2; [|apply Z.ltb_ge in E2; lia].
  rewrite (Z.mod_small (4096 - size s - 1)) by lia.
  replace (4096 - size s - 1) with (4096 - 1 - size s) by lia.
  destruct (4096 - 1 - size s <? Z.of_nat (length out)) eqn:E3;
    cbn [set_truncated set_size set_buffer size truncated buffer];
    rewrite Z.mod_small by lia; destruct s; reflexivity.
Qed.

Lemma kept_bounds out s : size_inv s -> 0 <= kept out s <= BUFFER_SIZE - 1 - size s.
Proof. unfold kept, size_inv. lia. Qed.

Lemma format_into_size out s :
  size_inv s -> out <> [] -> size (format_into out s) = size s + kept out s.
Proof. intros. rewrite format_into_unfold by assumption. reflexivity. Qed.

Lemma format_into_truncated out s :
  size_inv s -> out <> [] ->
  truncated (format_into out s)
  = if BUFFER_SIZE - 1 - size s <? Z.of_nat (length out) then true else truncated s.
Proof. intros. rewrite format_into_unfold by assumption. reflexivity. Qed.

Lemma format_into_buffer out s :
  size_inv s -> out <> [] ->
  buffer (format_into out s)
  = list_inserts (Z.to_nat (size s))
      (take (Z.to_nat (BUFFER_SIZE - 1 - size s)) out ++ [NUL]) (buffer s).
Proof. intros. rewrite format_into_unfold by assumption. reflexivity. Qed.

Lemma format_into_size_inv out s : size_inv s -> size_inv (format_into out s).
Proof.
  intros Hs. destruct out as [|c out].
  - unfold format_into, snprintf, safeAppend. simpl length.
    destruct (size_t_wrap (BUFFER_SIZE - size s) <=? 0); simpl; exact Hs.
  - unfold size_inv. rewrite format_into_size by (auto; congruence).
    pose proof (kept_bounds (c :: out) s Hs). unfold size_inv in Hs. lia.
Qed.

(** The occupied text after [format_into]: the old text followed by the kept
    prefix of the output, and the terminator behind it. *)
Lemma format_into_record_text out s :
  wf s -> out <> [] ->
  record_text (format_into out s)
  = record_text s ++ take (Z.to_nat (BUFFER_SIZE - 1 - size s)) out.
Proof.
  intros (Hlen & Hs & Hnul) Hout. unfold record_text.
  rewrite format_into_size, format_into_buffer by assumption.
  pose proof (kept_bounds out s Hs) as Hk. unfold size_inv, BUFFER_SIZE in *.
  set (room := Z.to_nat (4096 - 1 - size s)).
  assert (Hkl : Z.to_nat (kept out s) = length (take room out)).
  { rewrite length_take. unfold kept, room, BUFFER_SIZE. lia. }
  apply list_eq. intros i.
  destruct (decide (i < Z.to_nat (size s))%nat) as [Hi|Hi].
  - rewrite lookup_take_lt by lia. rewrite list_lookup_inserts_lt by lia.
    rewrite lookup_app_l by (rewrite length_take; lia).
    rewrite lookup_take_lt by lia. reflexivity.
  - destruct (decide (i < Z.to_nat (size s) + length (take room out))%nat) as [Hj|Hj].
    + rewrite lookup_take_lt by lia.
      rewrite list_lookup_inserts by len_lia.
      rewrite lookup_app_l by lia.
      rewrite lookup_app_r by len_lia.
      rewrite length_take, Nat.min_l by lia. reflexivity.
    + rewrite lookup_take_ge by lia.
      rewrite lookup_ge_None_2; [reflexivity|].
      rewrite length_app, length_take. lia.
Qed.

Lemma format_into_wf out s : wf s -> wf (format_into out s).
Proof.
  intros Hwf. destruct out as [|c out].
  - destruct Hwf as (Hlen & Hs & Hnul).
    unfold format_into, snprintf, safeAppend, size_t_wrap, two64. simpl length.
    unfold size_inv, BUFFER_SIZE in *.
    rewrite (Z.mod_small (4096 - size s)) by lia.
    destruct (4096 - size s <=? 0) eqn:E; [apply Z.leb_le in E; lia|].
    simpl. unfold wf, size_inv, BUFFER_SIZE. simpl.
    rewrite take_nil. simpl app. rewrite length_inserts.
    repeat split; try lia; try assumption.
    rewrite list_lookup_inserts by (simpl length; lia).
    rewrite Nat.sub_diag. reflexivity.
  - assert (Hout : c :: out <> []) by congruence.
    pose proof Hwf as (Hlen & Hs & Hnul).
    pose proof (kept_bounds (c :: out) s Hs) as Hk.
    unfold wf. rewrite format_into_size, format_into_buffer by assumption.
    split; [rewrite length_inserts; assumption|].
    split; [apply format_into_size_inv; assumption|].
    unfold size_inv, BUFFER_SIZE in *.
    set (room := Z.to_nat (4096 - 1 - size s)).
    assert (Hkl : Z.to_nat (kept (c :: out) s) = length (take room (c :: out))).
    { rewrite length_take. unfold kept, room, BUFFER_SIZE. lia. }
    rewrite list_lookup_inserts by len_lia.
    rewrite lookup_app_r by lia.
    replace (Z.to_nat (size s + kept (c :: out) s) - Z.to_nat (size s)
             - length (take room (c :: out)))%nat with 0%nat by lia.
    reflexivity.
Qed.

(** ** [size] stays in range under every operation *)

Lemma reset_size_inv s : size_inv (reset s).
Proof. unfold size_inv, reset, BUFFER_SIZE. simpl. lia. Qed.

Lemma reset_wf s : length (buffer s) = Z.to_nat BUFFER_SIZE -> wf (reset s).
Proof.
  intros Hlen. unfold wf. split; [|split].
  - simpl. rewrite length_insert. exact Hlen.
  - apply reset_size_inv.
  - simpl. apply list_lookup_insert_eq. rewrite Hlen. vm_compute. lia.
Qed.

Lemma append_size_inv v s : size_inv s -> size_inv (append v s).
Proof.
  intros Hs.
  destruct v as [c|[t|]|t|t|b|T z|T z|d|p]; simpl;
    unfold append_char, append_cstr, append_string, append_string_view, append_bool,
      append_integral, appendHex, append_floating, append_pointer, append_cstr;
    repeat match goal with
      | |- context [match ?l with [] => _ | _ :: _ => _ end] => destruct l
      | |- context [if ?b then _ else _] => destruct b
      end;
    first [exact Hs | apply format_into_size_inv; exact Hs].
Qed.

Lemma append_wf v s : wf s -> wf (append v s).
Proof.
  intros Hs.
  destruct v as [c|[t|]|t|t|b|T z|T z|d|p]; simpl;
    unfold append_char, append_cstr, append_string, append_string_view, append_bool,
      append_integral, appendHex, append_floating, append_pointer, append_cstr;
    repeat match goal with
      | |- context [match ?l with [] => _ | _ :: _ => _ end] => destruct l
      | |- context [if ?b then _ else _] => destruct b
      end;
    first [exact Hs | apply format_into_wf; exact Hs].
Qed.

Lemma append_all_wf vs s : wf s -> wf (append_all vs s).
Proof.
  revert s. induction vs as [|v vs IH]; intros s Hs; simpl; [exact Hs|].
  apply IH, append_wf, Hs.
Qed.

(** [getTimestamp] only touches the timestamp cache. *)
Lemma getTimestamp_cases lt now s :
  getTimestamp lt now s = (cachedTimestamp s, s)
  \/ getTimestamp lt now s
     = (timestamp_text lt (includeDate s) now,
        set_timestampCache (timestamp_text lt (includeDate s) now) now s).
Proof.
  unfold getTimestamp.
  destruct (negb (is_empty (cachedTimestamp s))
            && (Z.quot (now - lastTimestampUpdate s) 1000000 <? 1)); auto.
Qed.

(** The state [printUnsafe] leaves behind is a reset one. *)
Lemma printUnsafe_state lt now s :
  fst (printUnsafe lt now s) = reset s
  \/ fst (printUnsafe lt now s) = reset (snd (getTimestamp lt now s)).
Proof.
  unfold printUnsafe.
  destruct (level_lt (currentLevel s) (consoleThreshold s)
            && (negb (fileLoggingEnabled s) || level_lt (currentLevel s) (fileThreshold s)));
    [left; reflexivity|right].
  destruct (getTimestamp lt now s) as [ts s1]. reflexivity.
Qed.

Lemma step_size_inv lt o s : size_inv s -> size_inv (fst (step lt o s)).
Proof.
  intros Hs. destruct o; simpl; try exact Hs.
  - apply append_size_inv, Hs.
  - apply reset_size_inv.
  - unfold print. destruct (printUnsafe_state lt now s) as [-> | ->]; apply reset_size_inv.
  - unfold flush. destruct (is_open (logFile s)); exact Hs.
  - unfold enableFileLogging. destruct (negb (fileLoggingEnabled s)); exact Hs.
  - unfold disableFileLogging. destruct (is_open (logFile s)); exact Hs.
Qed.

Lemma run_size_inv lt ops s : size_inv s -> size_inv (fst (run lt ops s)).
Proof.
  revert s. induction ops as [|o ops IH]; intros s Hs; simpl; [exact Hs|].
  pose proof (step_size_inv lt o s Hs) as H1.
  destruct (step lt o s) as [s1 ev1]. simpl in H1.
  specialize (IH s1 H1). destruct (run lt ops s1) as [s2 ev2]. exact IH.
Qed.

(** C6. The invariant [0 <= size <= BUFFER_SIZE - 1] (that is [size <= 4095],
    one place always left for the terminator) holds for a new buffer, is kept
    by every single operation (each [append] overload, [appendHex], [print],
    [reset], the setters and the file-sink operations), and therefore holds
    after every sequence of operations. *)
Theorem size_invariant :
  size_inv LogBuffer_new
  /\ (forall lt o s, size_inv s -> size_inv (fst (step lt o s)))
  /\ (forall lt ops s, size_inv s -> size_inv (fst (run lt ops s)))
  /\ (forall lt ops, 0 <= size (fst (run lt ops LogBuffer_new)) <= 4095).
Proof.
  assert (H0 : size_inv LogBuffer_new) by (apply wf_size_inv, wf_new).
  split; [exact H0|]. split; [exact step_size_inv|]. split; [exact run_size_inv|].
  intros lt ops. exact (run_size_inv lt ops LogBuffer_new H0).
Qed.

Lemma size_invariant_witness :
  size_inv LogBuffer_new
  /\ size_inv (fst (step gmtime_r (OpAppend (VCStr (Some (long_text 5000)))) LogBuffer_new)).
Proof.
  assert (H0 : size_inv LogBuffer_new) by (unfold size_inv, BUFFER_SIZE; simpl; lia).
  split; [exact H0|].
  exact (proj1 (proj2 size_invariant) gmtime_r _ LogBuffer_new H0).
Defined.

(** ** Emission: gating of the two sinks *)

Lemma level_lt_ge a b : level_lt a b = negb (level_ge a b).
Proof. unfold level_lt, level_ge. destruct (Z.ltb_spec (level_value a) (level_value b));
  destruct (Z.leb_spec (level_value b) (level_value a)); simpl; try reflexivity; lia. Qed.

Lemma compose_line_getTimestamp lt now s ts :
  compose_line ts (snd (getTimestamp lt now s)) = compose_line ts s.
Proof. destruct (getTimestamp_cases lt now s) as [-> | ->]; reflexivity. Qed.

Lemma emitted_line_eq lt now s :
  emitted_line lt now s
  = fst (getTimestamp lt now s) ++ toString (currentLevel s) ++ txt " | "
      ++ c_str (buffer s) ++ (if truncated s then txt " [TRUNCATED]" else []) ++ [LF].
Proof. unfold emitted_line. rewrite compose_line_getTimestamp. reflexivity. Qed.

Lemma printUnsafe_console lt now s :
  console_writes (snd (printUnsafe lt now s))
  = if level_ge (currentLevel s) (consoleThreshold s)
    then [console_text s (emitted_line lt now s)] else [].
Proof.
  unfold printUnsafe, emitted_line. rewrite !level_lt_ge.
  destruct (getTimestamp_cases lt now s) as [E|E]; rewrite E; simpl;
    destruct (level_ge (currentLevel s) (consoleThreshold s)); simpl;
    destruct (fileLoggingEnabled s); simpl;
    destruct (level_ge (currentLevel s) (fileThreshold s)); simpl;
    destruct (is_open (logFile s)); simpl;
    try destruct (shouldFlush _); reflexivity.
Qed.

Lemma printUnsafe_file lt now s :
  file_writes (snd (printUnsafe lt now s))
  = if file_sink_ready s && level_ge (currentLevel s) (fileThreshold s)
    then [emitted_line lt now s] else [].
Proof.
  unfold printUnsafe, emitted_line, file_sink_ready. rewrite !level_lt_ge.
  destruct (getTimestamp_cases lt now s) as [E|E]; rewrite E; simpl;
    destruct (level_ge (currentLevel s) (consoleThreshold s)); simpl;
    destruct (fileLoggingEnabled s); simpl;
    destruct (level_ge (currentLevel s) (fileThreshold s)); simpl;
    destruct (is_open (logFile s)); simpl;
    try destruct (shouldFlush _); reflexivity.
Qed.

(** C1. During [print], for every record severity [L = currentLevel]: the
    console receives the composed line, that is timestamp, label, [" | "],
    the text of the buffer, the marker [" [TRUNCATED]"] if the record was
    truncated, and the line terminator (wrapped in the colour code of the
    level and the reset code when colours are on), if and only if
    [L >= consoleThreshold], and nothing otherwise; the file receives the
    composed line if and only if file logging is enabled with an open handle
    and [L >= fileThreshold], and nothing otherwise.  The two conditions are
    independent: for each of the four combinations there is a state in which
    exactly that combination of sinks fires. *)
Theorem sink_gating :
  (forall lt now s,
     let line :=
       fst (getTimestamp lt now s) ++ toString (currentLevel s) ++ txt " | "
         ++ c_str (buffer s) ++ (if truncated s then txt " [TRUNCATED]" else [])
         ++ [LF] in
     console_writes (snd (print lt now s))
     = (if level_ge (currentLevel s) (consoleThreshold s)
        then [if useColors s
              then getColor (currentLevel s) ++ c_str line ++ COLOR_RESET
              else c_str line]
        else [])
     /\ file_writes (snd (print lt now s))
        = (if fileLoggingEnabled s && is_open (logFile s)
              && level_ge (currentLevel s) (fileThreshold s)
           then [line] else []))
  /\ (forall lt now s,
        (console_writes (snd (print lt now s)) <> []
         <-> level_ge (currentLevel s) (consoleThreshold s) = true)
        /\ (file_writes (snd (print lt now s)) <> []
            <-> fileLoggingEnabled s = true /\ is_open (logFile s) = true
                /\ level_ge (currentLevel s) (fileThreshold s) = true))
  /\ (forall c f : bool, forall lt now,
        (console_writes (snd (print lt now (gating_example c f))) <> [] <-> c = true)
        /\ (file_writes (snd (print lt now (gating_example c f))) <> [] <-> f = true)).
Proof.
  assert (Hiff : forall lt now s,
        (console_writes (snd (print lt now s)) <> []
         <-> level_ge (currentLevel s) (consoleThreshold s) = true)
        /\ (file_writes (snd (print lt now s)) <> []
            <-> fileLoggingEnabled s = true /\ is_open (logFile s) = true
                /\ level_ge (currentLevel s) (fileThreshold s) = true)).
  { intros lt now s. unfold print.
    rewrite printUnsafe_console, printUnsafe_file. unfold file_sink_ready.
    destruct (level_ge (currentLevel s) (consoleThreshold s));
      destruct (fileLoggingEnabled s); destruct (is_open (logFile s));
      destruct (level_ge (currentLevel s) (fileThreshold s)); simpl;
      repeat split; intros; try congruence; try tauto;
      match goal with H : _ /\ _ /\ _ |- _ => destruct H as (? & ? & ?); congruence end. }
  split; [|split].
  - intros lt now s line. unfold print.
    rewrite printUnsafe_console, printUnsafe_file, emitted_line_eq.
    unfold console_text, file_sink_ready. split; reflexivity.
  - exact Hiff.
  - intros c f lt now. destruct (Hiff lt now (gating_example c f)) as [Hc Hf].
    split.
    + rewrite Hc. destruct c; vm_compute; split; congruence.
    + rewrite Hf. destruct f; vm_compute; split; intros; try congruence; try tauto.
Qed.

Lemma sink_gating_witness :
  (console_writes (snd (print gmtime_r clock1 gating_record))
   = [ESC :: txt "[32m2024-02-29 12:34:56.000000 |    INFO | hello 42 " ++ [LF]
        ++ ESC :: txt "[0m"]
   /\ file_writes (snd (print gmtime_r clock1 gating_record))
      = [txt "2024-02-29 12:34:56.000000 |    INFO | hello 42 " ++ [LF]])
  /\ file_writes (snd (print gmtime_r clock1 gating_record_cut))
     = [txt "2024-02-29 12:34:56.000000 |    INFO | hello 42  [TRUNCATED]" ++ [LF]]
  /\ (console_writes (snd (print gmtime_r clock1 gating_record_silent)) = []
      /\ file_writes (snd (print gmtime_r clock1 gating_record_silent)) = []).
Proof.
  destruct (proj1 sink_gating gmtime_r clock1 gating_record) as [Hc Hf].
  destruct (proj1 sink_gating gmtime_r clock1 gating_record_cut) as [_ Hf'].
  destruct (proj1 sink_gating gmtime_r clock1 gating_record_silent) as [Hc0 Hf0].
  split; [split|split; [|split]].
  - etransitivity; [exact Hc|]. vm_compute. reflexivity.
  - etransitivity; [exact Hf|]. vm_compute. reflexivity.
  - etransitivity; [exact Hf'|]. vm_compute. reflexivity.
  - etransitivity; [exact Hc0|]. vm_compute. reflexivity.
  - etransitivity; [exact Hf0|]. vm_compute. reflexivity.
Defined.

(** ** Emission: the record is always reset *)

Lemma c_str_reset_buffer b : c_str (<[0%nat := NUL]> b) = [].
Proof. destruct b; reflexivity. Qed.

(** C5. Every call of [print] leaves the record reset: [size = 0],
    [currentLevel] back at the default INFO, [truncated = false] and an empty
    text in the buffer, whether or not a sink fired.  When the level is below
    the console threshold and the file sink is disabled or the level is below
    the file threshold, [print] does nothing but this reset: no output at all,
    no timestamp computed (the timestamp cache is left as it was). *)
Theorem print_resets lt now s :
  (size (fst (print lt now s)) = 0
   /\ currentLevel (fst (print lt now s)) = LOG_INFO
   /\ truncated (fst (print lt now s)) = false
   /\ c_str (buffer (fst (print lt now s))) = [])
  /\ (level_lt (currentLevel s) (consoleThreshold s) = true ->
      fileLoggingEnabled s = false \/ level_lt (currentLevel s) (fileThreshold s) = true ->
      print lt now s = (reset s, [])
      /\ cachedTimestamp (fst (print lt now s)) = cachedTimestamp s
      /\ lastTimestampUpdate (fst (print lt now s)) = lastTimestampUpdate s).
Proof.
  split.
  - unfold print.
    destruct (printUnsafe_state lt now s) as [-> | ->]; simpl;
      rewrite c_str_reset_buffer; auto.
  - intros Hc Hf. unfold print, printUnsafe. rewrite Hc.
    destruct Hf as [-> | ->]; simpl; rewrite ?orb_true_r; auto.
Qed.

Lemma print_resets_witness :
  print gmtime_r 1709210096123456789
    (append (VInt T_int32 42) (setLevel LOG_DEBUG (setConsoleThreshold LOG_WARNING LogBuffer_new)))
  = (reset (append (VInt T_int32 42)
              (setLevel LOG_DEBUG (setConsoleThreshold LOG_WARNING LogBuffer_new))), []).
Proof.
  apply (proj2 (print_resets gmtime_r 1709210096123456789 _)).
  - reflexivity.
  - left. reflexivity.
Defined.

(** ** The file sink life cycle *)

Lemma getTimestamp_sink lt now s :
  fileLoggingEnabled (snd (getTimestamp lt now s)) = fileLoggingEnabled s
  /\ logFile (snd (getTimestamp lt now s)) = logFile s.
Proof. destruct (getTimestamp_cases lt now s) as [-> | ->]; auto. Qed.

Lemma append_sink v s :
  fileLoggingEnabled (append v s) = fileLoggingEnabled s
  /\ logFile (append v s) = logFile s.
Proof.
  destruct v as [c|[t|]|t|t|b|T z|T z|d|p]; simpl;
    unfold append_char, append_cstr, append_string, append_string_view, append_bool,
      append_integral, appendHex, append_floating, append_pointer, append_cstr,
      format_into, snprintf, safeAppend;
    repeat match goal with
      | |- context [match ?l with [] => _ | _ :: _ => _ end] => destruct l
      | |- context [if ?b then _ else _] => destruct b
      end; auto.
Qed.

Lemma step_sink_consistent lt o s :
  sink_consistent s -> sink_consistent (fst (step lt o s)).
Proof.
  unfold sink_consistent. intros Hs. destruct o; simpl; try exact Hs.
  - destruct (append_sink v s) as [-> ->]. exact Hs.
  - unfold print. destruct (printUnsafe_state lt now s) as [-> | ->]; simpl; [exact Hs|].
    destruct (getTimestamp_sink lt now s) as [-> ->]. exact Hs.
  - unfold flush. destruct (is_open (logFile s)) eqn:E; simpl; rewrite E; exact Hs.
  - unfold enableFileLogging. destruct (negb (fileLoggingEnabled s)); [|exact Hs].
    reflexivity.
  - unfold disableFileLogging. destruct (is_open (logFile s)) eqn:E; simpl;
      rewrite ?E; reflexivity.
Qed.

(** Every state reached from a new buffer through its operations has the flag
    and the handle in agreement. *)
Lemma run_sink_consistent lt ops s :
  sink_consistent s -> sink_consistent (fst (run lt ops s)).
Proof.
  revert s. induction ops as [|o ops IH]; intros s Hs; simpl; [exact Hs|].
  pose proof (step_sink_consistent lt o s Hs) as H1.
  destruct (step lt o s) as [s1 ev1]. simpl in H1.
  specialize (IH s1 H1). destruct (run lt ops s1) as [s2 ev2]. exact IH.
Qed.

Lemma set_fileLoggingEnabled_same s :
  set_fileLoggingEnabled (fileLoggingEnabled s) s = s.
Proof. destruct s; reflexivity. Qed.

(** C9. Disabling the file sink when it is already disabled (flag off, no
    handle open: the two go together in every state reached through the
    operations, [run_sink_consistent]) changes nothing and produces no
    output; flushing when no file is open changes nothing and produces no output; and
    [disableFileLogging] is idempotent: a second call in a row changes
    nothing and produces no output, from every state. *)
Theorem disable_and_flush_idle s :
  (fileLoggingEnabled s = false -> is_open (logFile s) = false ->
   disableFileLogging s = (s, []))
  /\ (is_open (logFile s) = false -> flush s = (s, []))
  /\ disableFileLogging (fst (disableFileLogging s)) = (fst (disableFileLogging s), []).
Proof.
  split; [|split].
  - intros Hf Ho. unfold disableFileLogging. rewrite Ho, <- Hf.
    rewrite set_fileLoggingEnabled_same. reflexivity.
  - intros Ho. unfold flush. rewrite Ho. reflexivity.
  - unfold disableFileLogging. destruct (is_open (logFile s)) eqn:Ho; simpl.
    + reflexivity.
    + rewrite Ho. reflexivity.
Qed.

Lemma disable_and_flush_idle_witness :
  disableFileLogging LogBuffer_new = (LogBuffer_new, [])
  /\ flush LogBuffer_new = (LogBuffer_new, []).
Proof.
  split.
  - apply (proj1 (disable_and_flush_idle LogBuffer_new)); reflexivity.
  - apply (proj1 (proj2 (disable_and_flush_idle LogBuffer_new))); reflexivity.
Defined.

(** C10. [enableFileLogging] on a buffer whose file sink is already enabled
    does nothing, whatever the file name, the clock and the file system say:
    the state (handle, flag and every other field) is returned as it was and
    no file is opened. *)
Theorem enable_when_enabled lt now ok filename s :
  fileLoggingEnabled s = true ->
  enableFileLogging lt now ok filename s = (s, []).
Proof. intros H. unfold enableFileLogging. rewrite H. reflexivity. Qed.

Lemma enable_when_enabled_witness :
  fileLoggingEnabled enabled_example = true
  /\ path (logFile enabled_example) = txt "app.log"
  /\ enableFileLogging gmtime_r 1709210099000000000 true (txt "other.log") enabled_example
     = (enabled_example, []).
Proof.
  split; [reflexivity|]. split; [reflexivity|].
  apply (enable_when_enabled gmtime_r). reflexivity.
Defined.

(** ** Positional rendering: digits, value and width *)

Section Digits.

Variable base : N.

Hypothesis base_ge_2 : (2 <= base)%N.

Lemma div_base_lt_pow2 n f :
  (n < 2 ^ (N.of_nat (S f) + 1))%N -> (n / base < 2 ^ (N.of_nat f + 1))%N.
Proof.
  intros Hn. apply N.Div0.div_lt_upper_bound.
  replace (N.of_nat (S f) + 1)%N with (N.succ (N.of_nat f + 1)) in Hn by lia.
  rewrite N.pow_succ_r' in Hn. nia.
Qed.

Lemma digits_fuel_lt_base f : forall n,
  (n < 2 ^ (N.of_nat f + 1))%N -> Forall (fun d => (d < base)%N) (digits_fuel f base n).
Proof.
  induction f as [|f IH]; intros n Hn.
  - simpl in *. constructor; [|constructor]. change (2 ^ 1)%N with 2%N in Hn. lia.
  - cbn [digits_fuel]. destruct (N.ltb_spec n base) as [Hlt|Hge].
    + constructor; [exact Hlt | constructor].
    + apply Forall_app. split; [apply IH, div_base_lt_pow2, Hn|].
      constructor; [|constructor]. apply N.mod_lt. lia.
Qed.

Lemma digits_value_snoc ds d :
  digits_value base (ds ++ [d]) = (digits_value base ds * base + d)%N.
Proof. unfold digits_value. rewrite fold_left_app. reflexivity. Qed.

Lemma digits_fuel_value f : forall n,
  (n < 2 ^ (N.of_nat f + 1))%N -> digits_value base (digits_fuel f base n) = n.
Proof.
  induction f as [|f IH]; intros n Hn.
  - reflexivity.
  - cbn [digits_fuel]. destruct (N.ltb_spec n base) as [Hlt|Hge]; [reflexivity|].
    rewrite digits_value_snoc, IH by (apply div_base_lt_pow2, Hn).
    rewrite N.mul_comm. symmetry. apply N.div_mod. lia.
Qed.

Lemma digits_fuel_length f : forall n k,
  (n < base ^ N.of_nat (S k))%N -> (length (digits_fuel f base n) <= S k)%nat.
Proof.
  induction f as [|f IH]; intros n k Hn; [simpl; lia|].
  cbn [digits_fuel]. destruct (N.ltb_spec n base) as [Hlt|Hge]; [simpl; lia|].
  rewrite length_app. simpl length.
  destruct k as [|k].
  - change (N.of_nat 1) with 1%N in Hn. rewrite N.pow_1_r in Hn. lia.
  - assert (length (digits_fuel f base (n / base)) <= S k)%nat; [|lia].
    apply IH. apply N.Div0.div_lt_upper_bound.
    replace (N.of_nat (S (S k))) with (N.succ (N.of_nat (S k))) in Hn by lia.
    rewrite N.pow_succ_r' in Hn. exact Hn.
Qed.

Lemma digits_fuel_nonempty f n : digits_fuel f base n <> [].
Proof.
  destruct f; simpl; [congruence|].
  destruct (n <? base)%N; [congruence|]. intros H. apply app_eq_nil in H.
  destruct H; congruence.
Qed.

Lemma log2_fuel n : (n < 2 ^ (N.of_nat (N.to_nat (N.log2 n)) + 1))%N.
Proof.
  rewrite N2Nat.id. destruct n as [|p]; [reflexivity|].
  rewrite N.add_1_r. apply N.log2_spec. reflexivity.
Qed.

(** The digits are proper digits, denote [n], and are as many as [n] needs:
    the fuel of [digits] never runs out. *)
Lemma digits_lt_base n : Forall (fun d => (d < base)%N) (digits base n).
Proof. apply digits_fuel_lt_base, log2_fuel. Qed.

Lemma digits_correct n : digits_value base (digits base n) = n.
Proof. apply digits_fuel_value, log2_fuel. Qed.

Lemma digits_length n k :
  (n < base ^ N.of_nat (S k))%N -> (1 <= length (digits base n) <= S k)%nat.
Proof.
  intros Hn. split; [|apply digits_fuel_length, Hn].
  unfold digits. pose proof (digits_fuel_nonempty (N.to_nat (N.log2 n)) n).
  destruct (digits_fuel _ base n); [congruence | simpl; lia].
Qed.

End Digits.

Lemma dec_digit_is_digit d : (d < 10)%N -> is_dec_digit (dec_digit d) = true.
Proof.
  intros H.
  assert (Hc : (d = 0 \/ d = 1 \/ d = 2 \/ d = 3 \/ d = 4 \/ d = 5 \/ d = 6 \/ d = 7
               \/ d = 8 \/ d = 9)%N) by lia.
  repeat (destruct Hc as [-> | Hc]; [reflexivity|]). subst. reflexivity.
Qed.

Lemma render_dec_digits n : Forall (fun c => is_dec_digit c = true) (render_dec n).
Proof.
  unfold render_dec. apply Forall_fmap.
  eapply Forall_impl; [apply (digits_lt_base 10); lia|].
  intros d Hd. apply dec_digit_is_digit, Hd.
Qed.

Lemma render_dec_length n k :
  (n < 10 ^ N.of_nat (S k))%N -> (1 <= length (render_dec n) <= S k)%nat.
Proof.
  intros H. unfold render_dec. rewrite length_map. apply digits_length; [lia | exact H].
Qed.

Lemma render_HEX_length n k :
  (n < 16 ^ N.of_nat (S k))%N -> (1 <= length (render_HEX n) <= S k)%nat.
Proof.
  intros H. unfold render_HEX. rewrite length_map. apply digits_length; [lia | exact H].
Qed.

Lemma render_hex_length n k :
  (n < 16 ^ N.of_nat (S k))%N -> (1 <= length (render_hex n) <= S k)%nat.
Proof.
  intros H. unfold render_hex. rewrite length_map. apply digits_length; [lia | exact H].
Qed.

(** ** Timestamps *)

Lemma quot_ms_lt_1 x : (Z.quot x 1000000 <? 1) = (x <? 1000000).
Proof.
  pose proof (Z.quot_rem' x 1000000) as Hqr.
  destruct (Z_lt_le_dec x 0) as [Hneg|Hpos].
  - pose proof (Z.rem_bound_pos_neg x 1000000 ltac:(lia) ltac:(lia)).
    destruct (Z.ltb_spec (Z.quot x 1000000) 1); destruct (Z.ltb_spec x 1000000);
      try reflexivity; lia.
  - pose proof (Z.rem_bound_pos x 1000000 ltac:(lia) ltac:(lia)).
    destruct (Z.ltb_spec (Z.quot x 1000000) 1); destruct (Z.ltb_spec x 1000000);
      try reflexivity; lia.
Qed.

Lemma fmt_lld_small z : 0 <= z < 2 ^ 63 -> fmt_lld z = render_dec (Z.to_N z).
Proof.
  intros Hz. unfold fmt_lld, as_signed64, two64.
  rewrite Z.mod_small by lia.
  destruct (Z.ltb_spec z (2 ^ 63)); [|lia].
  destruct (Z.ltb_spec z 0); [lia | reflexivity].
Qed.

Lemma micros_field_six now :
  0 <= now ->
  length (micros_field now) = 6%nat
  /\ Forall (fun c => is_dec_digit c = true) (micros_field now).
Proof.
  intros Hnow. unfold micros_field.
  assert (Hq : 0 <= Z.quot now 1000) by (apply Z.quot_pos; lia).
  pose proof (Z.rem_bound_pos (Z.quot now 1000) 1000000 Hq ltac:(lia)) as Hm.
  rewrite fmt_lld_small by lia.
  set (m := Z.rem (Z.quot now 1000) 1000000) in *.
  pose proof (render_dec_length (Z.to_N m) 5 ltac:(change (10 ^ N.of_nat 6)%N with 1000000%N; lia))
    as Hl.
  unfold pad_left. split.
  - rewrite length_app, length_replicate. lia.
  - apply Forall_app. split; [|apply render_dec_digits].
    apply Forall_replicate. reflexivity.
Qed.

Lemma timestamp_text_form lt include_date now :
  timestamp_text lt include_date now
  = (if include_date
     then put_time_date (lt (to_time_t now)) ++ txt " " ++ put_time_hms (lt (to_time_t now))
     else put_time_hms (lt (to_time_t now)))
    ++ txt "." ++ micros_field now ++ txt " | ".
Proof. unfold timestamp_text, micros_field, put_time_full. destruct include_date; reflexivity. Qed.

Lemma timestamp_text_nonempty lt include_date now :
  is_empty (timestamp_text lt include_date now) = false.
Proof.
  rewrite timestamp_text_form.
  destruct (_ : list ascii) as [|c l] eqn:E; [|reflexivity].
  apply app_eq_nil in E. destruct E as [_ E]. discriminate E.
Qed.

Lemma getTimestamp_hit lt now s :
  cachedTimestamp s <> [] -> now - lastTimestampUpdate s < 1000000 ->
  getTimestamp lt now s = (cachedTimestamp s, s).
Proof.
  intros Hc Hlt. unfold getTimestamp. rewrite quot_ms_lt_1.
  destruct (cachedTimestamp s); [congruence|]. simpl.
  destruct (Z.ltb_spec (now - lastTimestampUpdate s) 1000000); [reflexivity | lia].
Qed.

Lemma getTimestamp_miss lt now s :
  cachedTimestamp s = [] \/ 1000000 <= now - lastTimestampUpdate s ->
  getTimestamp lt now s
  = (timestamp_text lt (includeDate s) now,
     set_timestampCache (timestamp_text lt (includeDate s) now) now s).
Proof.
  intros H. unfold getTimestamp. rewrite quot_ms_lt_1. destruct H as [-> | H].
  - reflexivity.
  - destruct (Z.ltb_spec (now - lastTimestampUpdate s) 1000000); [lia|].
    rewrite andb_false_r. reflexivity.
Qed.

(** C8, as stated, fails: the second and the third request arrive within
    1 ms of each other (0.9 ms) and return different strings. *)
Lemma timestamp_within_1ms_counterexample :
  0 <= clock3 - clock2 < 1000000
  /\ fst request2 = txt "2024-02-29 12:34:56.000000 | "
  /\ fst request3 = txt "2024-02-29 12:34:56.001800 | "
  /\ fst request2 <> fst request3.
Proof.
  split; [vm_compute; split; congruence|].
  split; [vm_compute; reflexivity|].
  split; [vm_compute; reflexivity|].
  vm_compute. congruence.
Qed.

(** C8, amended.  A timestamp that [getTimestamp] computes (clock at or after
    the epoch) has the form [<date-and-or-time>.<six digits> | ], with the
    date in front of the time exactly when [includeDate] is set.  The cache is
    keyed on the last computation, not on the last request: with a non-empty
    cache, a request less than 1 ms after the last computation returns the
    cached string and changes nothing; with an empty cache, or 1 ms or more
    after the last computation, the string is computed from the clock and
    replaces the cache.  Hence every request less than 1 ms after a request
    that computed returns the same string as that request, and (the clock not
    running backwards) every request 1 ms or more after the previous request
    is computed from the clock. *)
Theorem timestamp_form_and_cache lt now s :
  (0 <= now ->
   timestamp_text lt (includeDate s) now
   = (if includeDate s
      then put_time_date (lt (to_time_t now)) ++ txt " " ++ put_time_hms (lt (to_time_t now))
      else put_time_hms (lt (to_time_t now)))
     ++ txt "." ++ micros_field now ++ txt " | "
   /\ length (micros_field now) = 6%nat
   /\ Forall (fun c => is_dec_digit c = true) (micros_field now))
  /\ (cachedTimestamp s <> [] -> now - lastTimestampUpdate s < 1000000 ->
      getTimestamp lt now s = (cachedTimestamp s, s))
  /\ (cachedTimestamp s = [] \/ 1000000 <= now - lastTimestampUpdate s ->
      getTimestamp lt now s
      = (timestamp_text lt (includeDate s) now,
         set_timestampCache (timestamp_text lt (includeDate s) now) now s)
      /\ forall now', now' - now < 1000000 ->
           fst (getTimestamp lt now' (snd (getTimestamp lt now s)))
           = fst (getTimestamp lt now s))
  /\ (forall now', lastTimestampUpdate s <= now -> 1000000 <= now' - now ->
        fst (getTimestamp lt now' (snd (getTimestamp lt now s)))
        = timestamp_text lt (includeDate s) now').
Proof.
  split; [|split; [|split]].
  - intros Hnow. split; [apply timestamp_text_form | apply micros_field_six, Hnow].
  - apply getTimestamp_hit.
  - intros Hmiss. pose proof (getTimestamp_miss lt now s Hmiss) as E.
    split; [exact E|]. intros now' Hnow'. rewrite E. simpl.
    rewrite getTimestamp_hit; simpl; [reflexivity | | exact Hnow'].
    pose proof (timestamp_text_nonempty lt (includeDate s) now) as Hne.
    intros Habs. rewrite Habs in Hne. discriminate Hne.
  - intros now' Hlast Hlate.
    destruct (getTimestamp_cases lt now s) as [E|E]; rewrite E; simpl;
      rewrite getTimestamp_miss; try reflexivity; right; simpl; lia.
Qed.

Lemma timestamp_form_and_cache_witness :
  (timestamp_text gmtime_r true clock3
   = txt "2024-02-29" ++ txt " " ++ txt "12:34:56" ++ txt "." ++ txt "001800" ++ txt " | "
   /\ length (micros_field clock3) = 6%nat)
  /\ getTimestamp gmtime_r clock2 (snd request1) = (fst request1, snd request1)
  /\ getTimestamp gmtime_r clock3 (snd request1)
     = (txt "2024-02-29 12:34:56.001800 | ",
        set_timestampCache (txt "2024-02-29 12:34:56.001800 | ") clock3 (snd request1)).
Proof.
  split; [|split].
  - destruct (proj1 (timestamp_form_and_cache gmtime_r clock3 LogBuffer_new))
      as (Hform & Hlen & _); [vm_compute; congruence|].
    split; [|exact Hlen]. etransitivity; [exact Hform|]. vm_compute. reflexivity.
  - apply (proj1 (proj2 (timestamp_form_and_cache gmtime_r clock2 (snd request1)))).
    + vm_compute. congruence.
    + vm_compute. reflexivity.
  - apply (proj1 (proj2 (proj2 (timestamp_form_and_cache gmtime_r clock3 (snd request1))))).
    right. vm_compute. congruence.
Defined.

(** ** What an append contributes and what it reserves *)

Lemma leb_guard_pass c s r :
  c = BUFFER_SIZE - r -> size s + r <= BUFFER_SIZE - 1 -> (c <=? size s) = false.
Proof. intros -> H. apply Z.leb_gt. lia. Qed.

Lemma leb_guard_stop c s r :
  c = BUFFER_SIZE - r -> BUFFER_SIZE - 1 < size s + r -> (c <=? size s) = true.
Proof. intros -> H. apply Z.leb_le. lia. Qed.

Lemma view_guard s n :
  size_inv s ->
  (n <? size_t_wrap (BUFFER_SIZE - size s - 1)) = (n <? BUFFER_SIZE - 1 - size s).
Proof.
  intros Hs. unfold size_t_wrap, two64, size_inv, BUFFER_SIZE in *.
  rewrite Z.mod_small by lia. f_equal. lia.
Qed.

(** With the reserve available the guard lets the append through. *)
Lemma append_admitted v s :
  size_inv s -> size s + reserve v <= BUFFER_SIZE - 1 ->
  append v s = if contributes v then format_into (rendered v) s else s.
Proof.
  intros Hs Hr.
  destruct v as [c|[t|]|[|a t]|[|a t]|b|T z|T z|d|p]; cbn [reserve] in Hr;
    cbn [append contributes]; unfold rendered; cbn [contributes canonical];
    unfold append_char, append_cstr, append_string, append_string_view, append_bool,
      append_integral, appendHex, append_floating, append_pointer, append_cstr;
    try reflexivity;
    try (erewrite leb_guard_pass by (try reflexivity; exact Hr); reflexivity).
  rewrite view_guard by exact Hs.
  destruct (Z.ltb_spec (Z.of_nat (length (a :: t))) (BUFFER_SIZE - 1 - size s));
    [reflexivity | lia].
Qed.

(** Without it the append only raises [truncated]: nothing is written. *)
Lemma append_refused v s :
  size_inv s -> BUFFER_SIZE - 1 < size s + reserve v ->
  append v s = set_truncated true s.
Proof.
  intros Hs Hr.
  destruct v as [c|[t|]|[|a t]|[|a t]|b|T z|T z|d|p]; cbn [reserve] in Hr;
    cbn [append];
    unfold append_char, append_cstr, append_string, append_string_view, append_bool,
      append_integral, appendHex, append_floating, append_pointer, append_cstr;
    try (erewrite leb_guard_stop by (try reflexivity; exact Hr); reflexivity);
    try (unfold size_inv in Hs; lia).
  rewrite view_guard by exact Hs.
  destruct (Z.ltb_spec (Z.of_nat (length (a :: t))) (BUFFER_SIZE - 1 - size s));
    [lia | reflexivity].
Qed.

Lemma rendered_nonempty v : contributes v = true -> rendered v <> [].
Proof.
  intros H. unfold rendered. rewrite H. intros E. apply app_eq_nil in E.
  destruct E as [_ E]. discriminate E.
Qed.

(** An append that finds both its reserve and its width in the room left
    writes its complete output behind the text and raises no flag. *)
Lemma append_exact v s :
  wf s -> size s + Z.max (reserve v) (width v) <= BUFFER_SIZE - 1 ->
  record_text (append v s) = record_text s ++ rendered v
  /\ size (append v s) = size s + width v
  /\ truncated (append v s) = truncated s.
Proof.
  intros Hwf Hroom. pose proof (wf_size_inv s Hwf) as Hs.
  rewrite append_admitted by (auto; lia).
  unfold width in *. destruct (contributes v) eqn:Hc.
  - pose proof (rendered_nonempty v Hc) as Hne.
    rewrite format_into_record_text, format_into_size, format_into_truncated by assumption.
    unfold kept. rewrite take_ge by lia.
    destruct (Z.ltb_spec (BUFFER_SIZE - 1 - size s) (Z.of_nat (length (rendered v))));
      [lia|]. repeat split; lia.
  - unfold rendered. rewrite Hc. simpl. rewrite app_nil_r. repeat split; lia.
Qed.

(** ** Assembling a record *)

Lemma append_all_exact vs : forall s,
  wf s -> room_for_all (size s) vs = true ->
  record_text (append_all vs s) = record_text s ++ concat (map rendered vs)
  /\ size (append_all vs s) = size s + total_width vs
  /\ truncated (append_all vs s) = truncated s.
Proof.
  induction vs as [|v vs IH]; intros s Hwf Hroom.
  - simpl. rewrite app_nil_r. repeat split; lia.
  - cbn [room_for_all] in Hroom. apply andb_true_iff in Hroom as [Hv Hvs].
    apply Z.leb_le in Hv.
    destruct (append_exact v s Hwf Hv) as (Ht & Hsz & Htr).
    cbn [append_all fold_left]. change (fold_left _ vs ?x) with (append_all vs x).
    rewrite <- Hsz in Hvs.
    destruct (IH (append v s) (append_wf v s Hwf) Hvs) as (Ht' & Hsz' & Htr').
    rewrite Ht', Hsz', Htr', Ht, Hsz, Htr. cbn [map concat].
    change (total_width (v :: vs)) with (width v + total_width vs).
    rewrite <- app_assoc. repeat split; lia.
Qed.

Lemma width_nonneg v : 0 <= width v.
Proof. unfold width. lia. Qed.

Lemma width_contributes v : contributes v = true -> 1 <= width v.
Proof.
  intros H. unfold width, rendered. rewrite H, length_app. simpl length. lia.
Qed.

Lemma total_width_nonneg vs : 0 <= total_width vs.
Proof.
  induction vs as [|v vs IH]; simpl; [lia|]. pose proof (width_nonneg v). lia.
Qed.

Lemma c_str_NUL_free l : NUL_free l -> c_str l = l.
Proof.
  induction 1 as [|c l Hc _ IH]; [reflexivity|]. simpl. rewrite Hc, IH. reflexivity.
Qed.

Lemma c_str_terminated l rest : NUL_free l -> c_str (l ++ NUL :: rest) = l.
Proof.
  induction 1 as [|c l Hc _ IH]; [reflexivity|]. simpl. rewrite Hc, IH. reflexivity.
Qed.

(** In a well-formed buffer without embedded NULs the string that starts at
    [buffer] is the occupied text. *)
Lemma c_str_buffer s : wf s -> NUL_free (record_text s) -> c_str (buffer s) = record_text s.
Proof.
  intros (_ & _ & Hnul) Hfree. unfold record_text in *.
  rewrite <- (take_drop (Z.to_nat (size s)) (buffer s)) at 1.
  rewrite (drop_S _ _ _ Hnul). apply c_str_terminated, Hfree.
Qed.

(** No overload reserves more than 30 bytes beyond what it writes, so a
    sequence whose total width leaves 30 bytes of the capacity free has room
    for all its appends. *)
Lemma room_when_30_left vs : forall used,
  Forall plain_view vs -> 0 <= used -> used + total_width vs <= BUFFER_SIZE - 30 ->
  room_for_all used vs = true.
Proof.
  induction vs as [|v vs IH]; intros used Hp Hu Hw; [reflexivity|].
  apply Forall_cons in Hp as [Hv Hvs].
  change (total_width (v :: vs)) with (width v + total_width vs) in Hw.
  pose proof (total_width_nonneg vs) as Ht. pose proof (width_nonneg v) as Hwv.
  cbn [room_for_all]. apply andb_true_iff. split.
  - apply Z.leb_le.
    assert (Hr : reserve v <= 30 \/ reserve v <= width v \/ (width v = 0 /\ reserve v <= 1)).
    { destruct v as [c|[t|]|[|a t]|[|a t]|b|T z|T z|d|p]; cbn [reserve]; try (left; lia).
      right. left. unfold width, rendered. cbn [contributes canonical].
      rewrite (c_str_NUL_free _ Hv), length_app. simpl length. lia. }
    assert (Hc : contributes v = true -> 1 <= width v) by apply width_contributes.
    destruct (contributes v) eqn:E.
    + specialize (Hc eq_refl). unfold BUFFER_SIZE in *. lia.
    + unfold BUFFER_SIZE in *. destruct v as [c|[t|]|[|a t]|[|a t]|b|T z|T z|d|p];
        try discriminate E; cbn [reserve] in *; lia.
  - apply IH; [exact Hvs | lia | lia].
Qed.

(** C3, as stated, fails: the total rendered width of [headroom_fields] stays
    under the capacity, but the integer finds less than its reserve of 25
    bytes and is dropped, and the record is flagged. *)
Lemma concatenation_counterexample :
  total_width headroom_fields = 4082
  /\ total_width headroom_fields < BUFFER_SIZE
  /\ concat (map rendered headroom_fields) = long_text 4079 ++ txt " 5 "
  /\ record_text (append_all headroom_fields LogBuffer_new) = long_text 4079 ++ txt " "
  /\ truncated (append_all headroom_fields LogBuffer_new) = true
  /\ record_text (append_all headroom_fields LogBuffer_new)
     <> concat (map rendered headroom_fields).
Proof.
  split; [vm_compute; reflexivity|].
  split; [vm_compute; reflexivity|].
  split; [vm_compute; reflexivity|].
  split; [vm_compute; reflexivity|].
  split; [vm_compute; reflexivity|].
  assert (H1 : length (record_text (append_all headroom_fields LogBuffer_new)) = 4080%nat)
    by (vm_compute; reflexivity).
  assert (H2 : length (concat (map rendered headroom_fields)) = 4082%nat)
    by (vm_compute; reflexivity).
  intros H. rewrite H, H2 in H1. discriminate H1.
Qed.

Lemma NUL_free_app a b : NUL_free a -> NUL_free b -> NUL_free (a ++ b).
Proof. intros Ha Hb. apply Forall_app. split; assumption. Qed.

Lemma is_dec_digit_not_NUL c : is_dec_digit c = true -> Ascii.eqb c NUL = false.
Proof.
  intros H. destruct (Ascii.eqb_spec c NUL) as [->|]; [|reflexivity].
  vm_compute in H. discriminate H.
Qed.

Lemma render_dec_NUL_free n : NUL_free (render_dec n).
Proof.
  eapply Forall_impl; [apply render_dec_digits|]. intros c. apply is_dec_digit_not_NUL.
Qed.

Lemma hex_digit_not_NUL d :
  (d < 16)%N ->
  Ascii.eqb (hex_digit_upper d) NUL = false /\ Ascii.eqb (hex_digit_lower d) NUL = false.
Proof.
  intros H.
  assert (Hc : (d = 0 \/ d = 1 \/ d = 2 \/ d = 3 \/ d = 4 \/ d = 5 \/ d = 6 \/ d = 7
               \/ d = 8 \/ d = 9 \/ d = 10 \/ d = 11 \/ d = 12 \/ d = 13 \/ d = 14
               \/ d = 15)%N) by lia.
  repeat (destruct Hc as [-> | Hc]; [split; reflexivity|]). subst. split; reflexivity.
Qed.

Lemma render_HEX_NUL_free n : NUL_free (render_HEX n).
Proof.
  unfold render_HEX. apply Forall_fmap.
  eapply Forall_impl; [apply (digits_lt_base 16); lia|].
  intros d Hd. apply (hex_digit_not_NUL d Hd).
Qed.

Lemma render_hex_NUL_free n : NUL_free (render_hex n).
Proof.
  unfold render_hex. apply Forall_fmap.
  eapply Forall_impl; [apply (digits_lt_base 16); lia|].
  intros d Hd. apply (hex_digit_not_NUL d Hd).
Qed.

Lemma fmt_integral_NUL_free T z : NUL_free (fmt_integral T z).
Proof.
  assert (Hu : forall x, NUL_free (fmt_llu x)) by (intros x; apply render_dec_NUL_free).
  assert (Hs : forall x, NUL_free (fmt_lld x)).
  { intros x. unfold fmt_lld. destruct (as_signed64 x <? 0).
    - apply NUL_free_app; [repeat constructor | apply render_dec_NUL_free].
    - apply render_dec_NUL_free. }
  unfold fmt_integral. destruct (is_size_t T); [apply Hu|].
  destruct (is_signed T); [apply Hs | apply Hu].
Qed.

Lemma fmt_hex_NUL_free T z : NUL_free (fmt_hex T z).
Proof.
  unfold fmt_hex, fmt_llX. apply NUL_free_app; [repeat constructor | apply render_HEX_NUL_free].
Qed.

Lemma fmt_f8_NUL_free d : NUL_free (fmt_f8 d).
Proof.
  assert (Hsg : forall b, NUL_free (fmt_sign b)) by (intros []; repeat constructor).
  destruct d as [neg m e|neg|neg]; cbn [fmt_f8].
  - apply NUL_free_app; [apply Hsg|].
    apply NUL_free_app; [apply render_dec_NUL_free|].
    apply NUL_free_app; [repeat constructor|].
    unfold pad_left. apply NUL_free_app; [|apply render_dec_NUL_free].
    apply Forall_replicate. reflexivity.
  - apply NUL_free_app; [apply Hsg | repeat constructor].
  - apply NUL_free_app; [apply Hsg | repeat constructor].
Qed.

Lemma fmt_p_NUL_free p : NUL_free (fmt_p p).
Proof.
  unfold fmt_p. destruct (p =? 0)%N; [repeat constructor|].
  apply NUL_free_app; [repeat constructor | apply render_hex_NUL_free].
Qed.

(** For a plain value the output of the append is the spelled value, and it
    holds no NUL. *)
Lemma plain_rendered v :
  plain_value v -> rendered v = spelled v /\ NUL_free (spelled v).
Proof.
  assert (Hsp : NUL_free SP) by (apply Forall_cons; split; [reflexivity | constructor]).
  assert (Htxt : forall t, NUL_free t ->
            c_str t ++ SP = t ++ SP /\ NUL_free (t ++ SP)).
  { intros t Ht. rewrite (c_str_NUL_free _ Ht).
    split; [reflexivity | apply NUL_free_app; assumption]. }
  assert (Hnum : forall x, NUL_free x -> x ++ SP = x ++ SP /\ NUL_free (x ++ SP)).
  { intros x Hx. split; [reflexivity | apply NUL_free_app; assumption]. }
  destruct v as [c|[t|]|[|a t]|[|a t]|b|T z|T z|d|p]; cbn [plain_value]; intros Hp;
    unfold rendered; cbn [contributes canonical spelled verbatim].
  - apply Hnum. apply Forall_cons. split; [exact Hp | constructor].
  - apply Htxt. apply Hp.
  - split; [reflexivity | constructor].
  - split; [reflexivity | constructor].
  - apply Htxt. exact Hp.
  - split; [reflexivity | constructor].
  - apply Htxt. exact Hp.
  - apply Hnum. destruct b; vm_compute; repeat (apply Forall_cons; split; [reflexivity|]);
      constructor.
  - apply Hnum. apply fmt_integral_NUL_free.
  - apply Hnum. apply fmt_hex_NUL_free.
  - apply Hnum. apply fmt_f8_NUL_free.
  - apply Hnum. apply fmt_p_NUL_free.
Qed.

Lemma plain_all vs :
  Forall plain_value vs ->
  map rendered vs = map spelled vs /\ NUL_free (concat (map spelled vs))
  /\ forall used, room_for_all used vs = room_for_spelled used vs.
Proof.
  induction 1 as [|v vs Hv _ IH]; [repeat split; constructor|].
  destruct IH as (Em & Hn & Hr). destruct (plain_rendered v Hv) as (Ev & Hnv).
  cbn [map concat room_for_all room_for_spelled]. unfold width. rewrite Ev, Em.
  split; [reflexivity|]. split; [apply NUL_free_app; assumption|].
  intros used. rewrite Hr. reflexivity.
Qed.

Lemma append_all_plain vs s :
  wf s -> NUL_free (record_text s) -> Forall plain_value vs ->
  room_for_spelled (size s) vs = true ->
  record_text (append_all vs s) = record_text s ++ concat (map spelled vs)
  /\ c_str (buffer (append_all vs s)) = record_text s ++ concat (map spelled vs)
  /\ size (append_all vs s) = size s + Z.of_nat (length (concat (map spelled vs)))
  /\ truncated (append_all vs s) = truncated s.
Proof.
  intros Hwf Hfree Hp Hroom. destruct (plain_all vs Hp) as (Em & Hn & Hr).
  rewrite <- Hr in Hroom.
  destruct (append_all_exact vs s Hwf Hroom) as (Ht & _ & Htr).
  rewrite Em in Ht.
  pose proof (append_all_wf vs s Hwf) as Hwf2.
  assert (Hc : c_str (buffer (append_all vs s)) = record_text s ++ concat (map spelled vs)).
  { rewrite c_str_buffer; [exact Ht | exact Hwf2 |].
    rewrite Ht. apply NUL_free_app; assumption. }
  split; [exact Ht|]. split; [exact Hc|]. split; [|exact Htr].
  pose proof (f_equal (@length ascii) Ht) as Hl. unfold record_text in Hl.
  destruct Hwf as (Hb & Hs & _). destruct Hwf2 as (Hb2 & Hs2 & _).
  unfold size_inv in *. rewrite !length_take, length_app, length_take in Hl. lia.
Qed.

(** C3, amended.  For every sequence of appends to an empty record, of
    values without NUL characters (no NUL appended as a character, none inside
    a text) and without the empty null-terminated text, in which each append
    finds, in the room left ([BUFFER_SIZE - 1 - size]), both the length of its
    text with its separator and the reserve of its overload (2 for a
    character, 10 for a boolean, 25 for an integral in decimal or hexadecimal,
    30 for a floating point, 20 for a pointer, 1 for a null-terminated text or
    a non-empty string, the length plus 1 for a non-empty string_view): the
    record, as the bytes up to [size] and as the string [print] reads from
    the buffer, is the concatenation, in call order, of the textual form of
    each value (a text verbatim) followed by one space, where a null text, an
    empty string and an empty string_view contribute nothing; and [truncated]
    stays false. *)
Theorem concatenation_within_reserve vs s :
  wf s -> size s = 0 -> truncated s = false ->
  Forall plain_value vs -> room_for_spelled 0 vs = true ->
  record_text (append_all vs s) = concat (map spelled vs)
  /\ c_str (buffer (append_all vs s)) = concat (map spelled vs)
  /\ size (append_all vs s) = Z.of_nat (length (concat (map spelled vs)))
  /\ truncated (append_all vs s) = false.
Proof.
  intros Hwf H0 Htr Hp Hroom. rewrite <- H0 in Hroom.
  assert (Hrec : record_text s = []) by (unfold record_text; rewrite H0; reflexivity).
  destruct (append_all_plain vs s Hwf) as (Ht & Hc & Hsz & Htr'); try assumption.
  { rewrite Hrec. constructor. }
  rewrite Hrec in *. rewrite H0 in Hsz. rewrite Htr in Htr'. auto.
Qed.

Lemma concatenation_within_reserve_witness :
  record_text (append_all sample_fields LogBuffer_new)
  = txt "hello 42 true 0xBEEF x -1.50000000 bye "
  /\ c_str (buffer (append_all sample_fields LogBuffer_new))
     = txt "hello 42 true 0xBEEF x -1.50000000 bye "
  /\ truncated (append_all sample_fields LogBuffer_new) = false.
Proof.
  destruct (concatenation_within_reserve sample_fields LogBuffer_new)
    as (Ht & Hc & _ & Htr).
  - split; [vm_compute; reflexivity|].
    split; [split; vm_compute; congruence | vm_compute; reflexivity].
  - reflexivity.
  - reflexivity.
  - unfold sample_fields. repeat (apply Forall_cons; split); try apply Forall_nil;
      vm_compute; repeat first [split | constructor | discriminate].
  - vm_compute. reflexivity.
  - split; [|split]; [etransitivity; [exact Ht|] | etransitivity; [exact Hc|] | exact Htr];
      vm_compute; reflexivity.
Defined.

(** ** Overflowing text *)

(** A null-terminated text that does not fit an empty record is cut: the
    buffer is filled to the last place before the terminator. *)
Lemma append_cstr_overflow text s :
  wf s -> size s = 0 -> NUL_free text -> BUFFER_SIZE - 1 <= Z.of_nat (length text) ->
  record_text (append_cstr (Some text) s) = take (Z.to_nat (BUFFER_SIZE - 1)) text
  /\ size (append_cstr (Some text) s) = BUFFER_SIZE - 1
  /\ truncated (append_cstr (Some text) s) = true
  /\ c_str (buffer (append_cstr (Some text) s)) = take (Z.to_nat (BUFFER_SIZE - 1)) text.
Proof.
  intros Hwf H0 Hfree Hlen. pose proof (wf_size_inv s Hwf) as Hs.
  assert (Hwf' : wf (append_cstr (Some text) s))
    by (apply (append_wf (VCStr (Some text))), Hwf).
  assert (Hne : text ++ SP <> []).
  { intros E. apply app_eq_nil in E. destruct E as [_ E]. discriminate E. }
  revert Hwf'. unfold append_cstr. rewrite H0.
  change (BUFFER_SIZE - 1 <=? 0) with false. cbv iota.
  rewrite c_str_NUL_free by assumption. intros Hwf'.
  assert (Hrec : record_text (format_into (text ++ SP) s)
                 = take (Z.to_nat (BUFFER_SIZE - 1)) text).
  { rewrite format_into_record_text by assumption.
    unfold record_text. rewrite H0. simpl take at 1. simpl app at 1.
    rewrite Z.sub_0_r. rewrite take_app_le by lia. reflexivity. }
  split; [exact Hrec|].
  rewrite format_into_size, format_into_truncated by assumption.
  unfold kept. rewrite H0, length_app. simpl length.
  split; [lia|]. split.
  - destruct (Z.ltb_spec (BUFFER_SIZE - 1 - 0) (Z.of_nat (length text + 1)));
      [reflexivity | lia].
  - rewrite c_str_buffer; [exact Hrec | exact Hwf' |].
    rewrite Hrec. apply Forall_take, Hfree.
Qed.

(** A string_view that does not fit is not written at all. *)
Lemma append_string_view_overflow text s :
  size_inv s -> text <> [] -> BUFFER_SIZE - 1 - size s <= Z.of_nat (length text) ->
  append_string_view text s = set_truncated true s.
Proof.
  intros Hs Hne Hlen. unfold append_string_view.
  destruct text as [|a t]; [congruence|].
  rewrite view_guard by exact Hs.
  destruct (Z.ltb_spec (Z.of_nat (length (a :: t))) (BUFFER_SIZE - 1 - size s));
    [lia | reflexivity].
Qed.

(** C4, as stated, fails for the string_view shape: a view of 5000 characters
    appended to a new buffer leaves the record empty and the array untouched;
    no prefix of the text is stored. *)
Lemma string_view_overflow_counterexample :
  length (long_text 5000) = 5000%nat
  /\ buffer (append (VStringView (long_text 5000)) LogBuffer_new) = buffer LogBuffer_new
  /\ size (append (VStringView (long_text 5000)) LogBuffer_new) = 0
  /\ record_text (append (VStringView (long_text 5000)) LogBuffer_new) = []
  /\ c_str (buffer (append (VStringView (long_text 5000)) LogBuffer_new)) = []
  /\ record_text (append (VStringView (long_text 5000)) LogBuffer_new)
     <> take 4094 (long_text 5000)
  /\ record_text (append (VStringView (long_text 5000)) LogBuffer_new)
     <> take 4095 (long_text 5000).
Proof.
  split; [vm_compute; reflexivity|].
  split; [vm_compute; reflexivity|].
  split; [vm_compute; reflexivity|].
  split; [vm_compute; reflexivity|].
  split; [vm_compute; reflexivity|].
  assert (H0 : length (record_text (append (VStringView (long_text 5000)) LogBuffer_new))
               = 0%nat) by (vm_compute; reflexivity).
  assert (H1 : length (take 4094 (long_text 5000)) = 4094%nat) by (vm_compute; reflexivity).
  assert (H2 : length (take 4095 (long_text 5000)) = 4095%nat) by (vm_compute; reflexivity).
  split; intros H; rewrite H in H0; congruence.
Qed.

(** C4, amended.  A text of 5000 characters (none of them NUL) appended to an
    empty record with capacity 4096:
    - as null-terminated text or as [std::string], leaves exactly the first
      4095 characters of the text in the buffer, with [truncated] set;
    - as [std::string_view], is not written at all: the record stays empty,
      with [truncated] set;
    - in each case the line composed by the following [print] ends with
      [" [TRUNCATED]"] and the line terminator. *)
Theorem text_overflow text s :
  wf s -> size s = 0 -> NUL_free text -> length text = 5000%nat ->
  (record_text (append (VCStr (Some text)) s) = take 4095 text
   /\ truncated (append (VCStr (Some text)) s) = true
   /\ forall lt now,
        emitted_line lt now (append (VCStr (Some text)) s)
        = fst (getTimestamp lt now (append (VCStr (Some text)) s))
            ++ toString (currentLevel s) ++ txt " | " ++ take 4095 text
            ++ txt " [TRUNCATED]" ++ [LF])
  /\ append (VString text) s = append (VCStr (Some text)) s
  /\ (record_text (append (VStringView text) s) = []
      /\ buffer (append (VStringView text) s) = buffer s
      /\ truncated (append (VStringView text) s) = true
      /\ forall lt now,
           emitted_line lt now (append (VStringView text) s)
           = fst (getTimestamp lt now (append (VStringView text) s))
               ++ toString (currentLevel s) ++ txt " | "
               ++ txt " [TRUNCATED]" ++ [LF]).
Proof.
  intros Hwf H0 Hfree Hlen. pose proof (wf_size_inv s Hwf) as Hs.
  assert (Hbig : BUFFER_SIZE - 1 <= Z.of_nat (length text))
    by (rewrite Hlen; vm_compute; congruence).
  split; [|split].
  - cbn [append].
    destruct (append_cstr_overflow text s Hwf H0 Hfree Hbig) as (Hrec & _ & Htr & Hc).
    change (Z.to_nat (BUFFER_SIZE - 1)) with 4095%nat in *.
    split; [exact Hrec|]. split; [exact Htr|].
    intros lt now. rewrite emitted_line_eq, Hc, Htr.
    replace (currentLevel (append_cstr (Some text) s)) with (currentLevel s); [reflexivity|].
    unfold append_cstr. rewrite H0. change (BUFFER_SIZE - 1 <=? 0) with false. cbv iota.
    rewrite format_into_unfold; [reflexivity | exact Hs |].
    intros E. apply app_eq_nil in E. destruct E as [_ E]. discriminate E.
  - cbn [append]. unfold append_string. destruct text; [discriminate Hlen | reflexivity].
  - cbn [append]. rewrite append_string_view_overflow;
      [|exact Hs|intros ->; discriminate Hlen|lia].
    unfold record_text. cbn [size buffer truncated set_truncated]. rewrite H0.
    split; [reflexivity|]. split; [reflexivity|]. split; [reflexivity|].
    intros lt now. rewrite emitted_line_eq. cbn [buffer truncated currentLevel set_truncated].
    destruct Hwf as (_ & _ & Hnul). rewrite H0 in Hnul.
    destruct (buffer s) as [|c b]; [discriminate Hnul|].
    simpl in Hnul. injection Hnul as ->. reflexivity.
Qed.

Lemma long_text_NUL_free n : NUL_free (long_text n).
Proof. apply Forall_replicate. reflexivity. Qed.

Lemma text_overflow_witness :
  record_text (append (VCStr (Some (long_text 5000))) LogBuffer_new) = long_text 4095
  /\ truncated (append (VCStr (Some (long_text 5000))) LogBuffer_new) = true
  /\ record_text (append (VStringView (long_text 5000)) LogBuffer_new) = []
  /\ truncated (append (VStringView (long_text 5000)) LogBuffer_new) = true.
Proof.
  destruct (text_overflow (long_text 5000) LogBuffer_new) as ((H1 & H2 & _) & _ & (H3 & _ & H4 & _)).
  - repeat split; vm_compute; congruence.
  - reflexivity.
  - apply Forall_replicate. reflexivity.
  - vm_compute. reflexivity.
  - split; [exact H1|]. split; [exact H2|]. split; [exact H3 | exact H4].
Defined.

(** ** Non-text appends: all or nothing, except for floating point *)

Lemma as_signed64_range z : - 2 ^ 63 <= as_signed64 z < 2 ^ 63.
Proof.
  unfold as_signed64, two64. pose proof (Z.mod_pos_bound z (2 ^ 64) ltac:(lia)).
  destruct (Z.ltb_spec (z mod 2 ^ 64) (2 ^ 63)); lia.
Qed.

Lemma as_unsigned64_range z : 0 <= as_unsigned64 z < 2 ^ 64.
Proof. unfold as_unsigned64, two64. apply Z.mod_pos_bound. lia. Qed.

Lemma fmt_llu_length z : (1 <= length (fmt_llu z) <= 20)%nat.
Proof.
  unfold fmt_llu. apply render_dec_length. pose proof (as_unsigned64_range z).
  change (10 ^ N.of_nat 20)%N with 100000000000000000000%N. lia.
Qed.

Lemma fmt_lld_length z : (1 <= length (fmt_lld z) <= 20)%nat.
Proof.
  unfold fmt_lld. pose proof (as_signed64_range z).
  destruct (Z.ltb_spec (as_signed64 z) 0).
  - rewrite length_app. simpl length.
    pose proof (render_dec_length (Z.to_N (- as_signed64 z)) 18) as Hl.
    change (10 ^ N.of_nat 19)%N with 10000000000000000000%N in Hl. lia.
  - pose proof (render_dec_length (Z.to_N (as_signed64 z)) 18) as Hl.
    change (10 ^ N.of_nat 19)%N with 10000000000000000000%N in Hl. lia.
Qed.

Lemma fmt_integral_length T z : (1 <= length (fmt_integral T z) <= 20)%nat.
Proof.
  unfold fmt_integral.
  destruct (is_size_t T); [apply fmt_llu_length|].
  destruct (is_signed T); [apply fmt_lld_length | apply fmt_llu_length].
Qed.

Lemma fmt_hex_length T z : (3 <= length (fmt_hex T z) <= 18)%nat.
Proof.
  unfold fmt_hex, fmt_llX. rewrite length_app. simpl length.
  pose proof (as_unsigned64_range (as_unsigned64 (cast_to T z))).
  pose proof (render_HEX_length (Z.to_N (as_unsigned64 (as_unsigned64 (cast_to T z)))) 15) as Hl.
  change (16 ^ N.of_nat 16)%N with 18446744073709551616%N in Hl. lia.
Qed.

Lemma fmt_p_length p : (p < 2 ^ 64)%N -> (3 <= length (fmt_p p) <= 18)%nat.
Proof.
  intros Hp. unfold fmt_p. destruct (p =? 0)%N; [simpl; lia|].
  rewrite length_app. simpl length.
  pose proof (render_hex_length p 15) as Hl.
  change (16 ^ N.of_nat 16)%N with 18446744073709551616%N in Hl.
  change (2 ^ 64)%N with 18446744073709551616%N in Hp. lia.
Qed.

Lemma width_within_reserve v : reserve_covers v -> width v <= reserve v.
Proof.
  unfold width, rendered.
  destruct v as [c|t|t|t|b|T z|T z|d|p]; cbn [reserve_covers contributes canonical reserve];
    try tauto; intros H; rewrite length_app; change (length SP) with 1%nat.
  - simpl. lia.
  - destruct b; simpl; lia.
  - pose proof (fmt_integral_length T z). lia.
  - pose proof (fmt_hex_length T z). lia.
  - pose proof (fmt_p_length p H). lia.
Qed.

(** For these the append is all or nothing: the complete output is written,
    or nothing is written and [truncated] is raised. *)
Lemma append_all_or_nothing v s :
  wf s -> reserve_covers v ->
  (BUFFER_SIZE - 1 < size s + reserve v /\ append v s = set_truncated true s)
  \/ (size s + reserve v <= BUFFER_SIZE - 1
      /\ record_text (append v s) = record_text s ++ rendered v
      /\ size (append v s) = size s + width v
      /\ truncated (append v s) = truncated s).
Proof.
  intros Hwf Hv. pose proof (width_within_reserve v Hv) as Hw.
  destruct (Z_lt_le_dec (BUFFER_SIZE - 1) (size s + reserve v)) as [Hfull|Hroom].
  - left. split; [exact Hfull|]. apply append_refused; [apply wf_size_inv, Hwf | exact Hfull].
  - right. split; [exact Hroom|]. apply append_exact; [exact Hwf | lia].
Qed.

(** C2. The floating-point append breaks the all-or-nothing rule: with 4065
    bytes occupied its guard ([size >= BUFFER_SIZE - 30]) lets it through with
    30 bytes of room, the output of ["%.8f "] for 2^100 is 41 characters long,
    and the first 30 of them are written, with [truncated] raised. *)
Theorem floating_append_partial_write :
  size nearly_full = 4065
  /\ truncated nearly_full = false
  /\ rendered (VFloat two_pow_100) = txt "1267650600228229401496703205376.00000000 "
  /\ width (VFloat two_pow_100) = 41
  /\ record_text (append (VFloat two_pow_100) nearly_full)
     = record_text nearly_full ++ txt "126765060022822940149670320537"
  /\ size (append (VFloat two_pow_100) nearly_full) = 4095
  /\ truncated (append (VFloat two_pow_100) nearly_full) = true.
Proof.
  split; [vm_compute; reflexivity|]. split; [vm_compute; reflexivity|].
  split; [vm_compute; reflexivity|]. split; [vm_compute; reflexivity|].
  split; [vm_compute; reflexivity|]. split; vm_compute; reflexivity.
Qed.

(** ** Empty and null text *)

Lemma append_string_empty s : append (VString []) s = s.
Proof. reflexivity. Qed.

Lemma append_string_view_empty s : append (VStringView []) s = s.
Proof. reflexivity. Qed.

Lemma append_cstr_null s : size s < BUFFER_SIZE - 1 -> append (VCStr None) s = s.
Proof.
  intros H. cbn [append]. unfold append_cstr.
  destruct (Z.leb_spec (BUFFER_SIZE - 1) (size s)); [lia | reflexivity].
Qed.

Lemma append_cstr_null_full s :
  BUFFER_SIZE - 1 <= size s -> append (VCStr None) s = set_truncated true s.
Proof.
  intros H. cbn [append]. unfold append_cstr.
  destruct (Z.leb_spec (BUFFER_SIZE - 1) (size s)); [reflexivity | lia].
Qed.

(** C7. The null-terminated overload is not a no-op on the empty text: on a
    new buffer it writes the separator and advances [size] to 1, where the
    [std::string] and [std::string_view] overloads leave the buffer as it is.
    And on a buffer filled to the last place it raises [truncated] for the
    null pointer. *)
Theorem empty_cstr_append_writes :
  record_text (append (VCStr (Some [])) LogBuffer_new) = txt " "
  /\ size (append (VCStr (Some [])) LogBuffer_new) = 1
  /\ size LogBuffer_new = 0
  /\ append (VString []) LogBuffer_new = LogBuffer_new
  /\ append (VStringView []) LogBuffer_new = LogBuffer_new
  /\ size exactly_full = 4095
  /\ truncated exactly_full = false
  /\ truncated (append (VCStr None) exactly_full) = true.
Proof.
  split; [vm_compute; reflexivity|]. split; [vm_compute; reflexivity|].
  split; [vm_compute; reflexivity|]. split; [vm_compute; reflexivity|].
  split; [vm_compute; reflexivity|]. split; [vm_compute; reflexivity|].
  split; vm_compute; reflexivity.
Qed.

(** * Further properties of the code *)

(** ** Labels *)

(** X1. The severity labels of [toString] all have the same width, seven
    characters, and no two severities share a label. *)
Theorem toString_fixed_width_injective :
  (forall l, length (toString l) = 7%nat)
  /\ (forall a b, toString a = toString b -> a = b).
Proof.
  split.
  - intros []; reflexivity.
  - intros [] []; intros H; try reflexivity; vm_compute in H; discriminate H.
Qed.

(** ** What the appends leave alone *)

Lemma format_into_fields out s :
  currentLevel (format_into out s) = currentLevel s
  /\ same_settings (format_into out s) s /\ same_cache (format_into out s) s.
Proof.
  unfold format_into, snprintf, safeAppend, same_settings, same_cache.
  repeat match goal with
    | |- context [if ?b then _ else _] => destruct b
    end; simpl; repeat split; reflexivity.
Qed.

Lemma append_cases v s :
  append v s = s \/ append v s = set_truncated true s
  \/ exists out, out <> [] /\ append v s = format_into out s.
Proof.
  assert (Hsp : forall x, x ++ SP <> []).
  { intros x E. apply app_eq_nil in E. destruct E as [_ E]. discriminate E. }
  destruct v as [c|[t|]|[|a t]|[|a t]|b|T z|T z|d|p]; cbn [append];
    unfold append_char, append_cstr, append_string, append_string_view, append_bool,
      append_integral, appendHex, append_floating, append_pointer, append_cstr;
    repeat match goal with
      | |- context [if ?b then _ else _] => destruct b
      end; eauto.
Qed.

Lemma append_fields v s :
  currentLevel (append v s) = currentLevel s
  /\ same_settings (append v s) s /\ same_cache (append v s) s.
Proof.
  destruct (append_cases v s) as [-> | [-> | (out & _ & ->)]].
  - unfold same_settings, same_cache. repeat split; reflexivity.
  - unfold same_settings, same_cache. repeat split; reflexivity.
  - apply format_into_fields.
Qed.

(** X5. No append touches anything but [buffer], [size] and [truncated]: the
    level of the record, the thresholds, the file sink, the formatting flags,
    the flush policy and the timestamp cache are as before. *)
Theorem append_frame v s :
  currentLevel (append v s) = currentLevel s
  /\ same_settings (append v s) s /\ same_cache (append v s) s.
Proof. apply append_fields. Qed.

Lemma append_all_frame vs : forall s,
  currentLevel (append_all vs s) = currentLevel s
  /\ same_settings (append_all vs s) s /\ same_cache (append_all vs s) s.
Proof.
  induction vs as [|v vs IH]; intros s.
  - unfold same_settings, same_cache. simpl. repeat split; reflexivity.
  - cbn [append_all fold_left]. change (fold_left _ vs ?x) with (append_all vs x).
    destruct (IH (append v s)) as (H1 & H2 & H3).
    destruct (append_fields v s) as (G1 & G2 & G3).
    unfold same_settings, same_cache in *.
    repeat split; try (etransitivity; [apply H2 | apply G2]);
      try (etransitivity; [apply H3 | apply G3]); congruence.
Qed.

(** ** The flag is sticky, the text only grows *)

Lemma format_into_sticky out s :
  truncated s = true -> truncated (format_into out s) = true.
Proof.
  intros H. unfold format_into, snprintf, safeAppend.
  repeat match goal with
    | |- context [if ?b then _ else _] => destruct b
    end; simpl; auto.
Qed.

Lemma append_sticky v s : truncated s = true -> truncated (append v s) = true.
Proof.
  intros H. destruct (append_cases v s) as [-> | [-> | (out & _ & ->)]];
    [exact H | reflexivity | apply format_into_sticky, H].
Qed.

(** X6. [truncated] is sticky: once it is set, no sequence of appends clears
    it. *)
Theorem truncated_sticky vs : forall s,
  truncated s = true -> truncated (append_all vs s) = true.
Proof.
  induction vs as [|v vs IH]; intros s H; [exact H|].
  cbn [append_all fold_left]. change (fold_left _ vs ?x) with (append_all vs x).
  apply IH, append_sticky, H.
Qed.

Lemma truncated_sticky_witness :
  truncated (append_all sample_fields (append (VStringView (long_text 5000)) LogBuffer_new))
  = true.
Proof. apply truncated_sticky. vm_compute. reflexivity. Defined.

Lemma append_extends v s :
  wf s ->
  size s <= size (append v s)
  /\ exists k, record_text (append v s) = record_text s ++ k.
Proof.
  intros Hwf. pose proof (wf_size_inv s Hwf) as Hs.
  destruct (append_cases v s) as [-> | [-> | (out & Hout & ->)]].
  - split; [lia|]. exists []. rewrite app_nil_r. reflexivity.
  - split; [simpl; lia|]. exists []. rewrite app_nil_r. reflexivity.
  - rewrite format_into_size, format_into_record_text by assumption.
    pose proof (kept_bounds out s Hs). split; [lia|]. eauto.
Qed.

Lemma append_all_extends vs : forall s,
  wf s ->
  size s <= size (append_all vs s)
  /\ exists k, record_text (append_all vs s) = record_text s ++ k.
Proof.
  induction vs as [|v vs IH]; intros s Hwf.
  - simpl. split; [lia|]. exists []. rewrite app_nil_r. reflexivity.
  - cbn [append_all fold_left]. change (fold_left _ vs ?x) with (append_all vs x).
    destruct (append_extends v s Hwf) as (H1 & k1 & E1).
    destruct (IH (append v s) (append_wf v s Hwf)) as (H2 & k2 & E2).
    split; [lia|]. exists (k1 ++ k2). rewrite E2, E1, app_assoc. reflexivity.
Qed.

(** X7. Appends never overwrite what the record already holds: after any
    sequence of appends the old text is a prefix of the new one and [size]
    has not decreased. *)
Theorem appends_extend_record vs s :
  wf s ->
  size s <= size (append_all vs s)
  /\ exists k, record_text (append_all vs s) = record_text s ++ k.
Proof. apply append_all_extends. Qed.

Lemma appends_extend_record_witness :
  size nearly_full <= size (append_all sample_fields nearly_full)
  /\ exists k, record_text (append_all sample_fields nearly_full)
               = record_text nearly_full ++ k.
Proof.
  apply appends_extend_record.
  split; [vm_compute; reflexivity|].
  split; [split; vm_compute; congruence | vm_compute; reflexivity].
Defined.

(** ** The array stays terminated *)

Lemma wf_same_record a b :
  buffer a = buffer b -> size a = size b -> wf b -> wf a.
Proof. unfold wf, size_inv. intros -> ->. auto. Qed.

Lemma getTimestamp_record lt now s :
  buffer (snd (getTimestamp lt now s)) = buffer s
  /\ size (snd (getTimestamp lt now s)) = size s
  /\ truncated (snd (getTimestamp lt now s)) = truncated s
  /\ currentLevel (snd (getTimestamp lt now s)) = currentLevel s.
Proof. destruct (getTimestamp_cases lt now s) as [-> | ->]; auto. Qed.

Lemma step_wf lt o s : wf s -> wf (fst (step lt o s)).
Proof.
  intros Hwf. pose proof Hwf as (Hlen & _ & _).
  destruct o; simpl; try (apply (wf_same_record _ s); [reflexivity | reflexivity | exact Hwf]).
  - apply append_wf, Hwf.
  - apply reset_wf, Hlen.
  - unfold print. destruct (printUnsafe_state lt now s) as [-> | ->]; apply reset_wf.
    + exact Hlen.
    + destruct (getTimestamp_record lt now s) as (-> & _). exact Hlen.
  - unfold flush. destruct (is_open (logFile s)); exact Hwf.
  - unfold enableFileLogging. destruct (negb (fileLoggingEnabled s)); [|exact Hwf].
    apply (wf_same_record _ s); [reflexivity | reflexivity | exact Hwf].
  - unfold disableFileLogging. destruct (is_open (logFile s));
      apply (wf_same_record _ s); try reflexivity; exact Hwf.
Qed.

Lemma run_wf lt ops : forall s, wf s -> wf (fst (run lt ops s)).
Proof.
  induction ops as [|o ops IH]; intros s Hs; simpl; [exact Hs|].
  pose proof (step_wf lt o s Hs) as H1.
  destruct (step lt o s) as [s1 ev1]. simpl in H1.
  specialize (IH s1 H1). destruct (run lt ops s1) as [s2 ev2]. exact IH.
Qed.

(** X8. Whatever sequence of operations is run on a new buffer, the array
    keeps its 4096 places and holds the terminating NUL at index [size]: the
    string that [print] reads always ends inside the array, at most [size]
    characters long. *)
Theorem buffer_always_terminated lt ops :
  length (buffer (fst (run lt ops LogBuffer_new))) = 4096%nat
  /\ buffer (fst (run lt ops LogBuffer_new))
       !! Z.to_nat (size (fst (run lt ops LogBuffer_new))) = Some NUL
  /\ (length (c_str (buffer (fst (run lt ops LogBuffer_new))))
      <= Z.to_nat (size (fst (run lt ops LogBuffer_new))))%nat.
Proof.
  pose proof (run_wf lt ops LogBuffer_new wf_new) as (Hlen & Hs & Hnul).
  split; [exact Hlen|]. split; [exact Hnul|].
  set (b := buffer (fst (run lt ops LogBuffer_new))) in *.
  set (n := Z.to_nat (size (fst (run lt ops LogBuffer_new)))) in *.
  clearbody b n. clear Hlen Hs. revert n Hnul.
  induction b as [|c b IH]; intros n Hnul; [discriminate Hnul|].
  simpl. destruct (Ascii.eqb_spec c NUL) as [->|Hc]; [simpl; lia|].
  destruct n as [|n]; [simpl in Hnul; congruence|].
  simpl. specialize (IH n Hnul). lia.
Qed.

(** X9. Whatever sequence of operations is run on a new buffer,
    [fileLoggingEnabled] holds exactly when the file handle is open. *)
Theorem sink_flag_mirrors_handle lt ops :
  fileLoggingEnabled (fst (run lt ops LogBuffer_new))
  = is_open (logFile (fst (run lt ops LogBuffer_new))).
Proof. apply run_sink_consistent. reflexivity. Qed.

(** ** Emission: what else [print] does and does not *)

Lemma level_ge_ERROR l :
  level_ge l LOG_ERROR = true <-> l = LOG_ERROR \/ l = LOG_FATAL \/ l = LOG_FIXED.
Proof.
  destruct l; vm_compute; split; intros H; auto;
    try discriminate H; destruct H as [H | [H | H]]; discriminate H.
Qed.

(** X3. [print] flushes the file exactly when it writes to the file and the
    flush policy asks for it: always under [ALWAYS], for the levels ERROR,
    FATAL and FIXED under [ERROR_AND_ABOVE], never under [NEVER]. *)
Theorem file_flush_policy lt now s :
  In FileFlush (snd (print lt now s))
  <-> (file_sink_ready s && level_ge (currentLevel s) (fileThreshold s) = true
       /\ policy_flushes s).
Proof.
  unfold policy_flushes. rewrite <- level_ge_ERROR.
  unfold print, printUnsafe, file_sink_ready, shouldFlush. rewrite !level_lt_ge.
  destruct (getTimestamp_cases lt now s) as [E|E]; rewrite E; simpl;
    destruct (level_ge (currentLevel s) (consoleThreshold s)); simpl;
    destruct (fileLoggingEnabled s); simpl;
    destruct (level_ge (currentLevel s) (fileThreshold s)); simpl;
    destruct (is_open (logFile s)); simpl;
    destruct (flushPolicy s); simpl;
    destruct (level_ge (currentLevel s) LOG_ERROR); simpl;
    intuition congruence.
Qed.

Lemma print_settings lt now s : same_settings (fst (print lt now s)) s.
Proof.
  unfold print, same_settings.
  destruct (printUnsafe_state lt now s) as [-> | ->]; simpl.
  - repeat split; reflexivity.
  - destruct (getTimestamp_cases lt now s) as [-> | ->]; simpl; repeat split; reflexivity.
Qed.

(** X4. [print] changes nothing but the record and the timestamp cache: the
    thresholds, the file sink, the formatting flags and the flush policy are
    as before. *)
Theorem print_keeps_settings lt now s : same_settings (fst (print lt now s)) s.
Proof. apply print_settings. Qed.

(** X2. After every request the cache holds the string that was returned,
    and that string is not empty. *)
Theorem timestamp_cache_holds_result lt now s :
  cachedTimestamp (snd (getTimestamp lt now s)) = fst (getTimestamp lt now s)
  /\ fst (getTimestamp lt now s) <> [].
Proof.
  unfold getTimestamp.
  destruct (cachedTimestamp s) as [|c l] eqn:Hc; simpl.
  - split; [reflexivity|]. intros E.
    pose proof (timestamp_text_nonempty lt (includeDate s) now) as Hne.
    rewrite E in Hne. discriminate Hne.
  - destruct (Z.quot (now - lastTimestampUpdate s) 1000000 <? 1); simpl.
    + split; [exact Hc | congruence].
    + split; [reflexivity|]. intros E.
      pose proof (timestamp_text_nonempty lt (includeDate s) now) as Hne.
      rewrite E in Hne. discriminate Hne.
Qed.

Lemma level_ge_FIXED t : level_ge LOG_FIXED t = true.
Proof. destruct t; reflexivity. Qed.

Lemma level_ge_VERBOSE l : level_ge l LOG_VERBOSE = true.
Proof. destruct l; reflexivity. Qed.

(** X20. No threshold silences a record at FIXED: it always reaches the
    console, and the file whenever file logging is enabled with an open
    handle.  And a threshold of VERBOSE lets every record through. *)
Theorem fixed_always_emitted lt now s :
  (currentLevel s = LOG_FIXED ->
   console_writes (snd (print lt now s)) = [console_text s (emitted_line lt now s)]
   /\ (file_sink_ready s = true ->
       file_writes (snd (print lt now s)) = [emitted_line lt now s]))
  /\ (consoleThreshold s = LOG_VERBOSE ->
      console_writes (snd (print lt now s)) = [console_text s (emitted_line lt now s)])
  /\ (fileThreshold s = LOG_VERBOSE -> file_sink_ready s = true ->
      file_writes (snd (print lt now s)) = [emitted_line lt now s]).
Proof.
  unfold print. rewrite printUnsafe_console, printUnsafe_file.
  split; [|split].
  - intros ->. rewrite !level_ge_FIXED. split; [reflexivity|]. intros ->. reflexivity.
  - intros ->. rewrite level_ge_VERBOSE. reflexivity.
  - intros -> ->. rewrite level_ge_VERBOSE. reflexivity.
Qed.

Lemma fixed_always_emitted_witness :
  console_writes
    (snd (print gmtime_r clock1
            (set_useColors false (setLevel LOG_FIXED (setConsoleThreshold LOG_FATAL LogBuffer_new)))))
  = [txt "2024-02-29 12:34:56.000000 |   FIXED | " ++ [LF]].
Proof.
  destruct (proj1 (fixed_always_emitted gmtime_r clock1
              (set_useColors false
                 (setLevel LOG_FIXED (setConsoleThreshold LOG_FATAL LogBuffer_new))))
              eq_refl) as [H _].
  exact H.
Defined.

(** ** The file sink: enabling, disabling, initialisation, shutdown *)

Lemma set_sink_same s :
  set_fileLoggingEnabled (fileLoggingEnabled s) (set_logFile (logFile s) s) = s.
Proof. destruct s; reflexivity. Qed.

(** X10. [enableFileLogging] on a disabled sink tries to open exactly one
    file, the name given or, for an empty name, [log_<date>_<time>.txt].  If
    the file opens, the sink is enabled on that file and nothing else
    changes; if it does not, the buffer is left exactly as it was, with the
    sink disabled: the failure is silent. *)
Theorem enable_outcome lt now ok filename s :
  fileLoggingEnabled s = false -> is_open (logFile s) = false ->
  snd (enableFileLogging lt now ok filename s)
  = [FileOpen (chosen_filename lt now filename) ok]
  /\ (ok = true ->
      fst (enableFileLogging lt now ok filename s)
      = set_fileLoggingEnabled true
          (set_logFile (mk_ofstream true (chosen_filename lt now filename)) s))
  /\ (ok = false -> fst (enableFileLogging lt now ok filename s) = s).
Proof.
  intros Hf Ho. unfold enableFileLogging, chosen_filename, ofstream_open.
  rewrite Hf, Ho. cbn [negb fst snd]. split; [reflexivity|]. split.
  - intros ->. reflexivity.
  - intros ->. cbv iota. rewrite Ho, <- Hf. apply set_sink_same.
Qed.

Lemma enable_outcome_witness :
  snd (enableFileLogging gmtime_r clock1 true [] LogBuffer_new)
  = [FileOpen (txt "log_20240229_123456.txt") true]
  /\ fst (enableFileLogging gmtime_r clock1 false (txt "app.log") LogBuffer_new)
     = LogBuffer_new.
Proof.
  split.
  - apply (proj1 (enable_outcome gmtime_r clock1 true [] LogBuffer_new eq_refl eq_refl)).
  - apply (proj2 (proj2 (enable_outcome gmtime_r clock1 false (txt "app.log")
                           LogBuffer_new eq_refl eq_refl))).
    reflexivity.
Defined.

(** X11. Enabling the file sink and disabling it again brings a buffer with
    a closed, disabled sink back to exactly the state it had, whether or
    not the file could be opened; the handle is flushed and closed only if
    it had been opened. *)
Theorem enable_disable_round_trip lt now ok filename s :
  fileLoggingEnabled s = false -> logFile s = closed_stream ->
  disableFileLogging (fst (enableFileLogging lt now ok filename s))
  = (s, if ok then [FileFlush; FileClose] else []).
Proof.
  intros Hf Hl. unfold enableFileLogging, disableFileLogging, ofstream_open.
  rewrite Hf, Hl. destruct ok; destruct s; simpl in *; subst; reflexivity.
Qed.

Lemma enable_disable_round_trip_witness :
  disableFileLogging (fst (enableFileLogging gmtime_r clock1 true (txt "app.log") LogBuffer_new))
  = (LogBuffer_new, [FileFlush; FileClose]).
Proof.
  apply (enable_disable_round_trip gmtime_r clock1 true (txt "app.log") LogBuffer_new);
    reflexivity.
Defined.

(** X12. [LOG_DEINIT] always leaves the sink disabled and the handle closed
    and never touches the record or the other settings; with an open handle
    it flushes (twice) and closes, and on a buffer whose sink was never
    enabled it does nothing at all. *)
Theorem deinit_closes s :
  (fileLoggingEnabled (fst (LOG_DEINIT s)) = false
   /\ is_open (logFile (fst (LOG_DEINIT s))) = false
   /\ buffer (fst (LOG_DEINIT s)) = buffer s /\ size (fst (LOG_DEINIT s)) = size s
   /\ truncated (fst (LOG_DEINIT s)) = truncated s
   /\ currentLevel (fst (LOG_DEINIT s)) = currentLevel s)
  /\ (is_open (logFile s) = true ->
      snd (LOG_DEINIT s) = [FileFlush; FileFlush; FileClose])
  /\ (is_open (logFile s) = false -> fileLoggingEnabled s = false ->
      LOG_DEINIT s = (s, [])).
Proof.
  unfold LOG_DEINIT, flush, disableFileLogging.
  destruct (is_open (logFile s)) eqn:Ho; simpl; rewrite ?Ho; simpl.
  - repeat split; try reflexivity. intros H; discriminate H.
  - rewrite Ho. repeat split; try reflexivity; try (intros H; discriminate H).
    intros _ Hf. rewrite <- Hf. rewrite set_fileLoggingEnabled_same. reflexivity.
Qed.

Lemma deinit_closes_witness :
  snd (LOG_DEINIT enabled_example) = [FileFlush; FileFlush; FileClose]
  /\ LOG_DEINIT LogBuffer_new = (LogBuffer_new, []).
Proof.
  split.
  - apply (proj1 (proj2 (deinit_closes enabled_example))). reflexivity.
  - apply (proj2 (proj2 (deinit_closes LogBuffer_new))); reflexivity.
Defined.

(** X13. [LOG_INIT] and [LOG_INIT_EXT] store the two thresholds and the two
    formatting flags (and the flush policy) they are given and leave the
    record as it is.  The file sink ends up disabled and closed when
    [ENABLE_FILE] is false; when it is true (flag and handle in agreement
    before) it ends up enabled exactly if it was enabled already or the file
    could be opened. *)
Theorem init_postconditions lt now ok cl fl ef ec idt policy s :
  sink_consistent s ->
  (forall s', s' = fst (LOG_INIT lt now ok cl fl ef ec idt s)
              \/ s' = fst (LOG_INIT_EXT lt now ok cl fl ef ec idt policy s) ->
     consoleThreshold s' = cl /\ fileThreshold s' = fl
     /\ useColors s' = ec /\ includeDate s' = idt
     /\ buffer s' = buffer s /\ size s' = size s /\ truncated s' = truncated s
     /\ currentLevel s' = currentLevel s
     /\ fileLoggingEnabled s' = (ef && (fileLoggingEnabled s || ok))
     /\ is_open (logFile s') = (ef && (fileLoggingEnabled s || ok)))
  /\ flushPolicy (fst (LOG_INIT lt now ok cl fl ef ec idt s)) = flushPolicy s
  /\ flushPolicy (fst (LOG_INIT_EXT lt now ok cl fl ef ec idt policy s)) = policy.
Proof.
  unfold sink_consistent. intros Hc.
  assert (H1 : forall s', s' = fst (LOG_INIT lt now ok cl fl ef ec idt s) ->
     consoleThreshold s' = cl /\ fileThreshold s' = fl
     /\ useColors s' = ec /\ includeDate s' = idt
     /\ buffer s' = buffer s /\ size s' = size s /\ truncated s' = truncated s
     /\ currentLevel s' = currentLevel s
     /\ fileLoggingEnabled s' = (ef && (fileLoggingEnabled s || ok))
     /\ is_open (logFile s') = (ef && (fileLoggingEnabled s || ok))
     /\ flushPolicy s' = flushPolicy s).
  { intros s' ->. unfold LOG_INIT, enableFileLogging, disableFileLogging, ofstream_open.
    destruct ef; cbn [andb].
    - cbn [fileLoggingEnabled set_includeDate set_useColors setFileThreshold
           setConsoleThreshold set_fileThreshold set_consoleThreshold logFile].
      destruct (fileLoggingEnabled s) eqn:Hf; cbn [negb orb fst].
      + simpl. rewrite Hf, <- Hc. repeat split; reflexivity.
      + rewrite <- Hc. destruct ok; simpl; rewrite ?Hf, <- ?Hc; repeat split; reflexivity.
    - cbn [logFile set_includeDate set_useColors setFileThreshold
           setConsoleThreshold set_fileThreshold set_consoleThreshold].
      destruct (is_open (logFile s)) eqn:Ho; simpl; rewrite ?Ho;
        repeat split; reflexivity. }
  split; [|split].
  - intros s' [E | E].
    + destruct (H1 s' E) as (?&?&?&?&?&?&?&?&?&?&?). repeat split; assumption.
    + subst s'. unfold LOG_INIT_EXT.
      destruct (LOG_INIT lt now ok cl fl ef ec idt s) as [s1 ev] eqn:E1.
      destruct (H1 s1) as (?&?&?&?&?&?&?&?&?&?&?); [reflexivity|].
      simpl. repeat split; assumption.
  - destruct (H1 _ eq_refl) as (?&?&?&?&?&?&?&?&?&?&?). assumption.
  - unfold LOG_INIT_EXT.
    destruct (LOG_INIT lt now ok cl fl ef ec idt s) as [s1 ev]. reflexivity.
Qed.

Lemma init_postconditions_witness :
  fileLoggingEnabled
    (fst (LOG_INIT gmtime_r clock1 false LOG_WARNING LOG_DEBUG true false true LogBuffer_new))
  = false
  /\ flushPolicy
       (fst (LOG_INIT_EXT gmtime_r clock1 true LOG_WARNING LOG_DEBUG true false true NEVER
               LogBuffer_new)) = NEVER.
Proof.
  pose proof (init_postconditions gmtime_r clock1 false LOG_WARNING LOG_DEBUG true false true
                NEVER LogBuffer_new eq_refl) as (H & _ & _).
  pose proof (init_postconditions gmtime_r clock1 true LOG_WARNING LOG_DEBUG true false true
                NEVER LogBuffer_new eq_refl) as (_ & _ & H').
  split; [|exact H'].
  destruct (H _ (or_introl eq_refl)) as (_&_&_&_&_&_&_&_&Hf&_). exact Hf.
Defined.

(** ** [safeAppend] and its return value *)

(** X19. With [size] in range, [safeAppend(written)] counts in exactly the
    number of bytes it returns: never more than [written], never more than
    the room before the terminator, nothing for [written <= 0]; it raises
    [truncated] exactly when it returns less than [written], and leaves the
    array alone. *)
Theorem safeAppend_accounting written s :
  size_inv s ->
  0 <= safeAppend_result written s <= Z.max written 0
  /\ safeAppend_result written s <= BUFFER_SIZE - 1 - size s
  /\ size (safeAppend written s) = size s + safeAppend_result written s
  /\ truncated (safeAppend written s)
     = (truncated s || (0 <? written) && (safeAppend_result written s <? written))
  /\ buffer (safeAppend written s) = buffer s.
Proof.
  unfold size_inv, BUFFER_SIZE. intros Hs.
  unfold safeAppend, safeAppend_result, size_t_wrap, two64, BUFFER_SIZE.
  rewrite (Z.mod_small (4096 - size s - 1)) by lia.
  destruct (Z.ltb_spec 0 written) as [Hw|Hw].
  - destruct (Z.ltb_spec (4096 - size s - 1) written) as [Hlt|Hge];
      cbn [set_truncated set_size size truncated buffer];
      rewrite Z.mod_small by lia.
    + rewrite Z.min_r by lia.
      destruct (Z.ltb_spec (4096 - size s - 1) written); [|lia].
      rewrite orb_true_r. repeat split; lia.
    + rewrite Z.min_l by lia.
      destruct (Z.ltb_spec written written); [lia|].
      rewrite orb_false_r. repeat split; lia.
  - rewrite orb_false_r. repeat split; lia.
Qed.

Lemma safeAppend_accounting_witness :
  size (safeAppend 41 nearly_full) = 4065 + 30
  /\ truncated (safeAppend 41 nearly_full) = true.
Proof.
  assert (Hs : size_inv nearly_full) by (split; vm_compute; congruence).
  destruct (safeAppend_accounting 41 nearly_full Hs) as (_ & _ & Hsz & Htr & _).
  split.
  - etransitivity; [exact Hsz|]. vm_compute. reflexivity.
  - etransitivity; [exact Htr|]. vm_compute. reflexivity.
Defined.

(** ** Integral appends print the value of their argument *)

Lemma wrap_signed m v :
  0 < m -> m = 2 * (m / 2) -> - (m / 2) <= v < m / 2 ->
  (if v mod m <? m / 2 then v mod m else v mod m - m) = v.
Proof.
  intros Hm Hh Hv.
  destruct (Z_lt_le_dec v 0) as [Hneg|Hpos].
  - replace (v mod m) with (v + m) by (apply Z.mod_unique with (q := -1); lia).
    destruct (Z.ltb_spec (v + m) (m / 2)); lia.
  - rewrite Z.mod_small by lia. destruct (Z.ltb_spec v (m / 2)); lia.
Qed.

Lemma as_signed64_id z : - 2 ^ 63 <= z < 2 ^ 63 -> as_signed64 z = z.
Proof.
  intros Hz. unfold as_signed64, two64.
  change (2 ^ 63) with (2 ^ 64 / 2) in *.
  apply wrap_signed; [reflexivity | reflexivity | exact Hz].
Qed.

Lemma as_unsigned64_signed z : as_unsigned64 (as_signed64 z) = z mod 2 ^ 64.
Proof.
  unfold as_unsigned64, as_signed64, two64.
  pose proof (Z.mod_pos_bound z (2 ^ 64) ltac:(lia)) as Hb.
  destruct (Z.ltb_spec (z mod 2 ^ 64) (2 ^ 63)).
  - apply Z.mod_mod. lia.
  - symmetry. apply Z.mod_unique with (q := -1); lia.
Qed.

Lemma cast_to_in_range T v : in_range T v -> cast_to T v = v.
Proof.
  unfold in_range, cast_to.
  destruct T; cbn [is_signed bit_width]; intros Hv;
    first [ apply Z.mod_small; exact Hv
          | apply wrap_signed; [reflexivity | reflexivity | exact Hv] ].
Qed.

(** X17. The integral [append] prints the mathematical value of its
    argument, for every integral type and every value of the type: in
    decimal, with a minus sign for negative values; the detour through
    [long long] loses nothing, also for unsigned 64-bit values of 2^63 and
    above. *)
Theorem integral_prints_value T v :
  in_range T v ->
  fmt_integral T v
  = if v <? 0 then txt "-" ++ render_dec (Z.to_N (- v)) else render_dec (Z.to_N v).
Proof.
  intros Hv. unfold fmt_integral. rewrite (cast_to_in_range T v Hv).
  unfold in_range in Hv.
  assert (Hu : is_signed T = false -> 0 <= v < 2 ^ 64).
  { intros E. rewrite E in Hv. destruct T; cbn [bit_width] in Hv; lia. }
  assert (Hsg : is_signed T = true -> - 2 ^ 63 <= v < 2 ^ 63).
  { intros E. rewrite E in Hv. destruct T; cbn [bit_width] in Hv; simpl in Hv; lia. }
  assert (Hllu : is_signed T = false ->
                 fmt_llu (as_signed64 v)
                 = if v <? 0 then txt "-" ++ render_dec (Z.to_N (- v))
                   else render_dec (Z.to_N v)).
  { intros E. specialize (Hu E). unfold fmt_llu.
    assert (Hm : as_unsigned64 (as_signed64 v) = v mod 2 ^ 64) by apply as_unsigned64_signed.
    unfold as_unsigned64 at 1, two64.
    pose proof (as_signed64_range v) as Hr.
    replace (as_signed64 v mod 2 ^ 64) with v.
    - destruct (Z.ltb_spec v 0); [lia | reflexivity].
    - unfold as_unsigned64, two64 in Hm. rewrite Hm. symmetry. apply Z.mod_small. lia. }
  destruct (is_size_t T) eqn:Hst.
  - apply Hllu. destruct T; try discriminate Hst; reflexivity.
  - destruct (is_signed T) eqn:Hsn; [|apply Hllu; reflexivity].
    specialize (Hsg eq_refl). unfold fmt_lld.
    rewrite !as_signed64_id by (rewrite ?as_signed64_id by lia; lia).
    reflexivity.
Qed.

Lemma integral_prints_value_witness :
  fmt_integral T_uint64 (2 ^ 64 - 1) = txt "18446744073709551615"
  /\ fmt_integral T_int8 (-128) = txt "-128".
Proof.
  split.
  - etransitivity; [apply integral_prints_value; vm_compute; split; congruence|].
    vm_compute. reflexivity.
  - etransitivity; [apply integral_prints_value; vm_compute; split; congruence|].
    vm_compute. reflexivity.
Defined.

(** X18. [appendHex] prints ["0x"] and the hexadecimal digits of its argument
    taken as a 64-bit pattern: the value itself when it is not negative, the
    value plus 2^64 (the sign extended to 64 bits, whatever the width of the
    type) when it is negative. *)
Theorem hex_prints_pattern T v :
  in_range T v ->
  fmt_hex T v
  = txt "0x" ++ render_HEX (Z.to_N (if v <? 0 then v + 2 ^ 64 else v)).
Proof.
  intros Hv. unfold fmt_hex, fmt_llX. rewrite (cast_to_in_range T v Hv).
  f_equal. f_equal. f_equal.
  unfold as_unsigned64, two64. rewrite Z.mod_mod by lia.
  assert (Hb : - 2 ^ 63 <= v < 2 ^ 64).
  { unfold in_range in Hv. destruct T; cbn [is_signed bit_width] in Hv; simpl in Hv; lia. }
  destruct (Z.ltb_spec v 0).
  - symmetry. apply Z.mod_unique with (q := -1); lia.
  - apply Z.mod_small. lia.
Qed.

Lemma hex_prints_pattern_witness :
  fmt_hex T_uint16 48879 = txt "0xBEEF"
  /\ fmt_hex T_int8 (-1) = txt "0xFFFFFFFFFFFFFFFF".
Proof.
  split.
  - etransitivity; [apply hex_prints_pattern; vm_compute; split; congruence|].
    vm_compute. reflexivity.
  - etransitivity; [apply hex_prints_pattern; vm_compute; split; congruence|].
    vm_compute. reflexivity.
Defined.

(** ** The flag tells whether the record is complete *)

Lemma append_unflagged v s :
  wf s -> truncated (append v s) = false ->
  truncated s = false /\ record_text (append v s) = record_text s ++ rendered v.
Proof.
  intros Hwf Htr. pose proof (wf_size_inv s Hwf) as Hs.
  destruct (Z_lt_le_dec (BUFFER_SIZE - 1) (size s + reserve v)) as [Hfull|Hroom].
  - rewrite append_refused in Htr by assumption. discriminate Htr.
  - rewrite append_admitted in * by assumption.
    destruct (contributes v) eqn:Hc.
    + pose proof (rendered_nonempty v Hc) as Hne.
      rewrite format_into_truncated in Htr by assumption.
      rewrite format_into_record_text by assumption.
      destruct (Z.ltb_spec (BUFFER_SIZE - 1 - size s) (Z.of_nat (length (rendered v))));
        [discriminate Htr|].
      rewrite take_ge by lia. auto.
    + unfold rendered. rewrite Hc, app_nil_r. auto.
Qed.

Lemma append_all_unflagged vs : forall s,
  wf s -> truncated (append_all vs s) = false ->
  truncated s = false
  /\ record_text (append_all vs s) = record_text s ++ concat (map rendered vs).
Proof.
  induction vs as [|v vs IH]; intros s Hwf Htr.
  - simpl in *. rewrite app_nil_r. auto.
  - cbn [append_all fold_left] in *. change (fold_left _ vs ?x) with (append_all vs x) in *.
    destruct (IH (append v s) (append_wf v s Hwf) Htr) as (Htr1 & Ht).
    destruct (append_unflagged v s Hwf Htr1) as (Htr0 & Ht0).
    split; [exact Htr0|]. rewrite Ht, Ht0. cbn [map concat]. rewrite app_assoc. reflexivity.
Qed.

(** X15. For values without NUL characters (no NUL appended as a character,
    none inside a text, no empty null-terminated text) appended to a record
    without NUL: if [truncated] is still false after the appends, nothing was
    dropped or cut.  It was false before; the record, as the bytes up to
    [size] and as the string [print] reads, is the old text followed by the
    textual form of every value (a text verbatim) and its separator, in call
    order; and the line [print] then sends to each sink that fires is
    timestamp, label, [" | "], that text and the line terminator, without
    marker. *)
Theorem unflagged_record_complete vs s :
  wf s -> NUL_free (record_text s) -> Forall plain_value vs ->
  truncated (append_all vs s) = false ->
  truncated s = false
  /\ record_text (append_all vs s) = record_text s ++ concat (map spelled vs)
  /\ c_str (buffer (append_all vs s)) = record_text s ++ concat (map spelled vs)
  /\ forall lt now,
       let line :=
         fst (getTimestamp lt now (append_all vs s)) ++ toString (currentLevel s)
           ++ txt " | " ++ (record_text s ++ concat (map spelled vs)) ++ [LF] in
       console_writes (snd (print lt now (append_all vs s)))
       = (if level_ge (currentLevel s) (consoleThreshold s)
          then [if useColors s
                then getColor (currentLevel s) ++ c_str line ++ COLOR_RESET
                else c_str line]
          else [])
       /\ file_writes (snd (print lt now (append_all vs s)))
          = (if fileLoggingEnabled s && is_open (logFile s)
                && level_ge (currentLevel s) (fileThreshold s)
             then [line] else []).
Proof.
  intros Hwf Hfree Hp Htr.
  destruct (append_all_unflagged vs s Hwf Htr) as (Htr0 & Ht).
  destruct (plain_all vs Hp) as (Em & Hn & _). rewrite Em in Ht.
  pose proof (append_all_wf vs s Hwf) as Hwf2.
  assert (Hc : c_str (buffer (append_all vs s)) = record_text s ++ concat (map spelled vs)).
  { rewrite c_str_buffer; [exact Ht | exact Hwf2 |].
    rewrite Ht. apply NUL_free_app; assumption. }
  split; [exact Htr0|]. split; [exact Ht|]. split; [exact Hc|].
  intros lt now line. subst line.
  destruct (append_all_frame vs s) as (Hl & (Ect & Eft & Elf & Efe & Euc & _ & _) & _).
  unfold print. rewrite printUnsafe_console, printUnsafe_file, emitted_line_eq.
  unfold console_text, file_sink_ready.
  rewrite Hc, Htr, Hl, Ect, Eft, Elf, Efe, Euc. simpl app. split; reflexivity.
Qed.

Lemma unflagged_record_complete_witness :
  c_str (buffer (append_all sample_fields LogBuffer_new))
  = txt "hello 42 true 0xBEEF x -1.50000000 bye "
  /\ console_writes
       (snd (print gmtime_r clock1
               (append_all sample_fields (set_useColors false LogBuffer_new))))
     = [txt "2024-02-29 12:34:56.000000 |    INFO | hello 42 true 0xBEEF x -1.50000000 bye "
          ++ [LF]].
Proof.
  assert (Hp : Forall plain_value sample_fields).
  { unfold sample_fields. repeat (apply Forall_cons; split); try apply Forall_nil;
      vm_compute; repeat first [split | constructor | discriminate]. }
  destruct (unflagged_record_complete sample_fields LogBuffer_new) as (_ & _ & Hc & _).
  { split; [vm_compute; reflexivity|].
    split; [split; vm_compute; congruence | vm_compute; reflexivity]. }
  { vm_compute. constructor. }
  { exact Hp. }
  { vm_compute. reflexivity. }
  destruct (unflagged_record_complete sample_fields (set_useColors false LogBuffer_new))
    as (_ & _ & _ & Hl).
  { split; [vm_compute; reflexivity|].
    split; [split; vm_compute; congruence | vm_compute; reflexivity]. }
  { vm_compute. constructor. }
  { exact Hp. }
  { vm_compute. reflexivity. }
  destruct (Hl gmtime_r clock1) as [Hcon _].
  split; [etransitivity; [exact Hc|] | etransitivity; [exact Hcon|]]; vm_compute; reflexivity.
Defined.

(** ** How much text fits *)

(** X16. The longest text that fits an empty record is one of
    [BUFFER_SIZE - 2] = 4094 characters, in each of the three text shapes:
    appended to an empty record, a text without NUL characters leaves
    [truncated] false exactly if it is at most 4094 characters long. *)
Theorem text_capacity text s :
  wf s -> size s = 0 -> truncated s = false -> NUL_free text ->
  (truncated (append (VCStr (Some text)) s) = false <-> (length text <= 4094)%nat)
  /\ (truncated (append (VString text) s) = false <-> (length text <= 4094)%nat)
  /\ (truncated (append (VStringView text) s) = false <-> (length text <= 4094)%nat).
Proof.
  intros Hwf H0 Htr Hfree. pose proof (wf_size_inv s Hwf) as Hs.
  assert (Hne : text ++ SP <> []).
  { intros E. apply app_eq_nil in E. destruct E as [_ E]. discriminate E. }
  assert (Hc : truncated (append (VCStr (Some text)) s) = false <-> (length text <= 4094)%nat).
  { cbn [append]. unfold append_cstr. rewrite H0.
    change (BUFFER_SIZE - 1 <=? 0) with false. cbv iota.
    rewrite c_str_NUL_free by assumption.
    rewrite format_into_truncated by assumption.
    rewrite H0, Htr, length_app. simpl length. unfold BUFFER_SIZE.
    destruct (Z.ltb_spec (4096 - 1 - 0) (Z.of_nat (length text + 1)));
      split; intros; try lia; try reflexivity; discriminate. }
  split; [exact Hc|]. split.
  - cbn [append] in *. unfold append_string. destruct text as [|a t]; [|exact Hc].
    rewrite Htr. simpl. split; intros; [lia | reflexivity].
  - cbn [append]. unfold append_string_view. destruct text as [|a t].
    + rewrite Htr. simpl. split; intros; [lia | reflexivity].
    + rewrite view_guard by exact Hs. rewrite H0. unfold BUFFER_SIZE.
      destruct (Z.ltb_spec (Z.of_nat (length (a :: t))) (4096 - 1 - 0)) as [Hlt|Hge].
      * rewrite c_str_NUL_free by assumption.
        rewrite format_into_truncated by (auto; congruence).
        rewrite H0, Htr, length_app. simpl length in *. unfold BUFFER_SIZE.
        destruct (Z.ltb_spec (4096 - 1 - 0) (Z.of_nat (S (length t) + 1)));
          split; intros; try lia; try reflexivity; discriminate.
      * simpl length in *. cbn [truncated set_truncated].
        split; intros; [discriminate | lia].
Qed.

Lemma text_capacity_witness :
  truncated (append (VCStr (Some (long_text 4094))) LogBuffer_new) = false
  /\ truncated (append (VStringView (long_text 4094))  LogBuffer_new) = false.
Proof.
  assert (Hwf : wf LogBuffer_new).
  { split; [vm_compute; reflexivity|].
    split; [split; vm_compute; congruence | vm_compute; reflexivity]. }
  assert (Hfree : NUL_free (long_text 4094)) by (apply Forall_replicate; reflexivity).
  destruct (text_capacity (long_text 4094) LogBuffer_new Hwf eq_refl eq_refl Hfree)
    as (Hc & _ & Hv).
  split; [apply Hc | apply Hv]; unfold long_text; rewrite length_replicate; lia.
Defined.

(** ** A whole record, from the fields to the line *)

Lemma getTimestamp_same_cache lt now a b :
  same_cache a b -> includeDate a = includeDate b ->
  fst (getTimestamp lt now a) = fst (getTimestamp lt now b).
Proof.
  intros (Hc & Hl) Hd. unfold getTimestamp. rewrite Hc, Hl, Hd.
  destruct (negb (is_empty (cachedTimestamp b))
            && (Z.quot (now - lastTimestampUpdate b) 1000000 <? 1)); reflexivity.
Qed.

Lemma LOG_PRINT_exact lt now severity fields s :
  wf s -> size s = 0 -> truncated s = false ->
  room_for_all 0 fields = true -> NUL_free (concat (map rendered fields)) ->
  console_writes (snd (LOG_PRINT lt now severity fields s))
  = (if level_ge severity (consoleThreshold s)
     then [console_text (setLevel severity s) (record_line lt now severity fields s)]
     else [])
  /\ file_writes (snd (LOG_PRINT lt now severity fields s))
     = (if file_sink_ready s && level_ge severity (fileThreshold s)
        then [record_line lt now severity fields s] else [])
  /\ size (fst (LOG_PRINT lt now severity fields s)) = 0
  /\ truncated (fst (LOG_PRINT lt now severity fields s)) = false.
Proof.
  intros Hwf H0 Htr Hroom Hfree.
  set (s1 := setLevel severity s).
  assert (Hwf1 : wf s1) by (apply (wf_same_record _ s); [reflexivity | reflexivity | exact Hwf]).
  assert (Hroom1 : room_for_all (size s1) fields = true) by (simpl; rewrite H0; exact Hroom).
  destruct (append_all_exact fields s1 Hwf1 Hroom1) as (Ht & _ & Htr2).
  destruct (append_all_frame fields s1) as (Hl & Hset & Hcache).
  pose proof (append_all_wf fields s1 Hwf1) as Hwf2.
  set (s2 := append_all fields s1) in *.
  assert (Hrec : record_text s1 = []).
  { unfold record_text. simpl. rewrite H0. reflexivity. }
  rewrite Hrec in Ht. simpl app in Ht.
  assert (Hline : emitted_line lt now s2 = record_line lt now severity fields s).
  { rewrite emitted_line_eq. unfold record_line.
    rewrite c_str_buffer by (rewrite ?Ht; assumption).
    rewrite Ht, Htr2, Hl. simpl truncated. rewrite Htr. simpl currentLevel.
    rewrite (getTimestamp_same_cache lt now s2 s); [reflexivity | |].
    - destruct Hcache as (E1 & E2). split; [rewrite E1 | rewrite E2]; reflexivity.
    - destruct Hset as (_&_&_&_&_&E&_). rewrite E. reflexivity. }
  destruct Hset as (Ect & Eft & Elf & Efe & Euc & _ & _).
  unfold LOG_PRINT. fold s1. fold s2.
  rewrite printUnsafe_console, printUnsafe_file, Hline.
  unfold file_sink_ready, console_text.
  rewrite Hl, Ect, Eft, Elf, Efe, Euc. simpl.
  split; [reflexivity|]. split; [reflexivity|].
  destruct (printUnsafe_state lt now s2) as [-> | ->]; simpl; auto.
Qed.

(** X14. [LOG_PRINT(severity, fields)] on an empty record, when every field
    finds its room and no field carries a NUL: the console gets, if
    [severity >= consoleThreshold], and the file gets, if file logging is on
    with an open handle and [severity >= fileThreshold], the line
    [<timestamp><label> | <field> <field> ... \n] built from exactly these
    fields in call order, without the truncation marker; and the record is
    empty again afterwards. *)
Theorem log_print_line lt now severity fields s :
  wf s -> size s = 0 -> truncated s = false ->
  room_for_all 0 fields = true -> NUL_free (concat (map rendered fields)) ->
  console_writes (snd (LOG_PRINT lt now severity fields s))
  = (if level_ge severity (consoleThreshold s)
     then [console_text (setLevel severity s) (record_line lt now severity fields s)]
     else [])
  /\ file_writes (snd (LOG_PRINT lt now severity fields s))
     = (if file_sink_ready s && level_ge severity (fileThreshold s)
        then [record_line lt now severity fields s] else [])
  /\ size (fst (LOG_PRINT lt now severity fields s)) = 0
  /\ truncated (fst (LOG_PRINT lt now severity fields s)) = false.
Proof. apply LOG_PRINT_exact. Qed.

Lemma log_print_line_witness :
  console_writes (snd (LOG_PRINT gmtime_r clock1 LOG_ERROR scenario_fields scenario_state))
  = [txt "2024-02-29 12:34:56.000000 |   ERROR | hello 42 " ++ [LF]].
Proof.
  destruct (log_print_line gmtime_r clock1 LOG_ERROR scenario_fields scenario_state)
    as (H & _).
  - split; [vm_compute; reflexivity|].
    split; [split; vm_compute; congruence | vm_compute; reflexivity].
  - reflexivity.
  - reflexivity.
  - vm_compute. reflexivity.
  - vm_compute. repeat constructor.
  - etransitivity; [exact H|]. vm_compute. reflexivity.
Defined.

(** ** A NUL among the fields *)

(** X21. Appending the NUL character ends the visible record: a NUL appended
    to a record without NULs is stored without any flag, and whatever is
    appended after it, the string that [print] reads from the buffer is the
    text from before the NUL. *)
Theorem nul_char_hides_rest vs s :
  wf s -> NUL_free (record_text s) -> size s + 2 <= BUFFER_SIZE - 1 ->
  truncated (append (VChar NUL) s) = truncated s
  /\ c_str (buffer (append_all vs (append (VChar NUL) s))) = record_text s.
Proof.
  intros Hwf Hfree Hroom.
  destruct (append_exact (VChar NUL) s Hwf) as (Ht & _ & Htr).
  { change (reserve (VChar NUL)) with 2. change (width (VChar NUL)) with 2. lia. }
  split; [exact Htr|].
  pose proof (append_wf (VChar NUL) s Hwf) as Hwf1.
  destruct (append_all_extends vs _ Hwf1) as (_ & k & Ek).
  pose proof (append_all_wf vs _ Hwf1) as (_ & _ & Hnul).
  set (s2 := append_all vs (append (VChar NUL) s)) in *.
  rewrite <- (take_drop (Z.to_nat (size s2)) (buffer s2)).
  change (take (Z.to_nat (size s2)) (buffer s2)) with (record_text s2).
  rewrite Ek, Ht. change (rendered (VChar NUL)) with (NUL :: SP).
  rewrite <- !app_assoc. simpl app. apply c_str_terminated, Hfree.
Qed.

Lemma nul_char_hides_rest_witness :
  c_str (buffer (append_all sample_fields
                   (append (VChar NUL) (append (VCStr (Some (txt "seen"))) LogBuffer_new))))
  = txt "seen ".
Proof.
  destruct (nul_char_hides_rest sample_fields
              (append (VCStr (Some (txt "seen"))) LogBuffer_new)) as (_ & H).
  - split; [vm_compute; reflexivity|].
    split; [split; vm_compute; congruence | vm_compute; reflexivity].
  - vm_compute. repeat constructor.
  - vm_compute. congruence.
  - etransitivity; [exact H|]. vm_compute. reflexivity.
Defined.

(** ** One record does not leak into the next *)

Lemma console_text_same a b x :
  useColors a = useColors b -> currentLevel a = currentLevel b ->
  console_text a x = console_text b x.
Proof. intros Hu Hl. unfold console_text. rewrite Hu, Hl. reflexivity. Qed.

Lemma LOG_PRINT_state lt now severity fields s :
  wf s ->
  wf (after_record lt now severity fields s)
  /\ size (after_record lt now severity fields s) = 0
  /\ truncated (after_record lt now severity fields s) = false
  /\ same_settings (after_record lt now severity fields s) s.
Proof.
  intros Hwf. unfold after_record, LOG_PRINT.
  set (s1 := setLevel severity s).
  assert (Hwf1 : wf s1) by (apply (wf_same_record _ s); [reflexivity | reflexivity | exact Hwf]).
  pose proof (append_all_wf fields s1 Hwf1) as Hwf2.
  destruct (append_all_frame fields s1) as (_ & Hset & _).
  pose proof (step_wf lt (OpPrint now) _ Hwf2) as Hwf3.
  pose proof (print_settings lt now (append_all fields s1)) as Hp.
  unfold print in Hp. simpl in Hwf3. unfold print in Hwf3.
  split; [exact Hwf3|].
  split; [|split].
  - destruct (printUnsafe_state lt now (append_all fields s1)) as [-> | ->]; reflexivity.
  - destruct (printUnsafe_state lt now (append_all fields s1)) as [-> | ->]; reflexivity.
  - unfold same_settings in *.
    destruct Hp as (?&?&?&?&?&?&?), Hset as (?&?&?&?&?&?&?).
    repeat split; etransitivity; try eassumption; reflexivity.
Qed.

Lemma after_record_cache lt now severity fields s :
  includeDate (after_record lt now severity fields s) = includeDate s
  /\ (lastTimestampUpdate (after_record lt now severity fields s) = lastTimestampUpdate s
      \/ lastTimestampUpdate (after_record lt now severity fields s) = now).
Proof.
  unfold after_record, LOG_PRINT.
  destruct (append_all_frame fields (setLevel severity s))
    as (_ & (_&_&_&_&_&Ed&_) & (_ & El)).
  simpl in Ed, El.
  set (s2 := append_all fields (setLevel severity s)) in *.
  destruct (printUnsafe_state lt now s2) as [-> | ->]; simpl.
  - split; [exact Ed | left; exact El].
  - destruct (getTimestamp_cases lt now s2) as [-> | ->]; simpl.
    + split; [exact Ed | left; exact El].
    + split; [exact Ed | right; reflexivity].
Qed.

(** X22. Nothing of a record's text, level or flag leaks into the next one.
    After any [LOG_PRINT], whatever its fields were and whether it was
    truncated or filtered out, the next [LOG_PRINT] of values without NUL
    characters that find their room sends each sink that fires (gated by the
    unchanged thresholds) the line made of the timestamp [getTimestamp]
    returns at that moment, its own label, [" | "], its own fields and the
    line terminator.  The timestamp may be the cached one of an earlier
    record; when the second record comes 1 ms or more after the first (the
    clock not running backwards) it is computed from the clock, and the line
    owes nothing to the previous record. *)
Theorem records_are_isolated lt now1 now2 sev1 sev2 fields1 fields2 s :
  wf s -> Forall plain_value fields2 -> room_for_spelled 0 fields2 = true ->
  (let line :=
     fst (getTimestamp lt now2 (after_record lt now1 sev1 fields1 s))
       ++ toString sev2 ++ txt " | " ++ concat (map spelled fields2) ++ [LF] in
   console_writes
     (snd (LOG_PRINT lt now2 sev2 fields2 (after_record lt now1 sev1 fields1 s)))
   = (if level_ge sev2 (consoleThreshold s)
      then [if useColors s then getColor sev2 ++ c_str line ++ COLOR_RESET
            else c_str line]
      else [])
   /\ file_writes
        (snd (LOG_PRINT lt now2 sev2 fields2 (after_record lt now1 sev1 fields1 s)))
      = (if fileLoggingEnabled s && is_open (logFile s) && level_ge sev2 (fileThreshold s)
         then [line] else []))
  /\ (lastTimestampUpdate s <= now1 -> 1000000 <= now2 - now1 ->
      fst (getTimestamp lt now2 (after_record lt now1 sev1 fields1 s))
      = timestamp_text lt (includeDate s) now2).
Proof.
  intros Hwf Hp Hroom.
  destruct (plain_all fields2 Hp) as (Em & Hn & Hr).
  rewrite <- Hr in Hroom. rewrite <- Em in Hn.
  destruct (LOG_PRINT_state lt now1 sev1 fields1 s Hwf) as (Hwf' & H0 & Htr & Hset).
  destruct (LOG_PRINT_exact lt now2 sev2 fields2 _ Hwf' H0 Htr Hroom Hn) as (Hc & Hf & _).
  destruct Hset as (Ect & Eft & Elf & Efe & Euc & _ & _).
  split.
  - intros line. subst line. rewrite Hc, Hf.
    unfold file_sink_ready, console_text, record_line.
    rewrite Ect, Eft, Elf, Efe, Em. simpl. rewrite Euc. split; reflexivity.
  - intros Hlast Hlate.
    destruct (after_record_cache lt now1 sev1 fields1 s) as (Ed & El).
    rewrite getTimestamp_miss; [simpl; rewrite Ed; reflexivity|].
    right. destruct El as [-> | ->]; lia.
Qed.

Lemma records_are_isolated_witness :
  console_writes
    (snd (LOG_PRINT gmtime_r clock3 LOG_ERROR scenario_fields
            (after_record gmtime_r clock1 LOG_FATAL [VStringView (long_text 5000)]
               scenario_state)))
  = [txt "2024-02-29 12:34:56.001800 |   ERROR | hello 42 " ++ [LF]]
  /\ fst (getTimestamp gmtime_r clock3
            (after_record gmtime_r clock1 LOG_FATAL [VStringView (long_text 5000)]
               scenario_state))
     = txt "2024-02-29 12:34:56.001800 | ".
Proof.
  destruct (records_are_isolated gmtime_r clock1 clock3 LOG_FATAL LOG_ERROR
              [VStringView (long_text 5000)] scenario_fields scenario_state)
    as ((H & _) & Hts).
  - split; [vm_compute; reflexivity|].
    split; [split; vm_compute; congruence | vm_compute; reflexivity].
  - unfold scenario_fields. repeat (apply Forall_cons; split); try apply Forall_nil;
      vm_compute; repeat first [split | constructor | discriminate].
  - vm_compute. reflexivity.
  - split.
    + etransitivity; [exact H|]. vm_compute. reflexivity.
    + etransitivity; [apply Hts; vm_compute; congruence|]. vm_compute. reflexivity.
Defined.
